(** * http_blaster: the orchestrator and the statistics aggregator

    A shallow embedding of [http_blaster.go]: the workload-id counter,
    [generate_executors], the aggregation loop and the report file written by
    [report], and the exit path of [main] ([exit], [handle_exit], the
    deferred calls).

    Conventions.
    - Go's fixed-width integers are values of [Z] kept in range by the
      explicit wrap-around functions [wrap_u64], [wrap_i64], [wrap_i32].
    - [time.Duration] is an [int64] count of nanoseconds.
    - [float64] is IEEE 754 binary64, taken from the Standard Library's
      executable specification [SpecFloat] at precision 53 and [emax] 1024.
    - Package-level variables, the files on disk and the logger's output are
      fields of one [world] record that every function threads through a
      small monad whose outcomes are: return, [os.Exit], panic. *)

From Stdlib Require Import ZArith Lia String List.
From Stdlib Require Import SpecFloat.
From stdpp Require Import gmap strings list pretty sorting.

Local Open Scope Z_scope.

(** ** Machine integers *)

Module Int.

Definition wrap_u64 (z : Z) : Z := z mod 2 ^ 64.
Definition wrap_i64 (z : Z) : Z := (z + 2 ^ 63) mod 2 ^ 64 - 2 ^ 63.
Definition wrap_i32 (z : Z) : Z := (z + 2 ^ 31) mod 2 ^ 32 - 2 ^ 31.

Definition is_i64 (z : Z) : Prop := - 2 ^ 63 <= z < 2 ^ 63.
Definition is_i32 (z : Z) : Prop := - 2 ^ 31 <= z < 2 ^ 31.

(** [x + y] on [uint64], on [int64] (a [time.Duration]) and on [int32]. *)
Definition add_u64 (x y : Z) : Z := wrap_u64 (x + y).
Definition add_i64 (x y : Z) : Z := wrap_i64 (x + y).
Definition add_i32 (x y : Z) : Z := wrap_i32 (x + y).

(** [x / y] on [int64] for a non-zero constant divisor: truncated. *)
Definition quot_i64 (x y : Z) : Z := wrap_i64 (Z.quot x y).

End Int.

(** ** float64 *)

Module F64.

Definition prec : Z := 53.
Definition emax : Z := 1024.

Definition float64 : Type := spec_float.

(** [float64(x)] for an integer [x] (signed or unsigned): the nearest
    binary64 value, ties to even. *)
Definition of_int (x : Z) : float64 := binary_normalize prec emax x 0 false.

Definition mul (x y : float64) : float64 := SFmul prec emax x y.
Definition div (x y : float64) : float64 := SFdiv prec emax x y.

(** The integer part of a float, when it has one. *)
Definition trunc (f : float64) : option Z :=
  match f with
  | S754_zero _ => Some 0
  | S754_finite s m e => Some (cond_Zopp s (Z.shiftl (Zpos m) e))
  | S754_infinity _ | S754_nan => None
  end.

(** What [int64(f)] yields when [f] has no [int64] value.  The language
    leaves the result to the implementation; this is the value the amd64
    conversion instruction produces. *)
Definition int64_indefinite : Z := - 2 ^ 63.

(** [int64(f)], and so [time.Duration(f)]: truncation toward zero. *)
Definition to_int64 (f : float64) : Z :=
  match trunc f with
  | Some z =>
      if (- 2 ^ 63 <=? z) && (z <? 2 ^ 63) then z else int64_indefinite
  | None => int64_indefinite
  end.

End F64.

(** ** Data model *)

(** Modelled from the spec: the declarations of [workload],
    [executor_result], [executor] and [tomlConfig] are in other files of
    the package than [http_blaster.go].  The fields below are the ones
    [http_blaster.go] reads or writes, with the types its typed
    accumulators force ([Total], [Iops]: [uint64]; [Min], [Max]:
    [time.Duration]); [Avg] is a [time.Duration] like the other latencies. *)

Record workload := {
  Id : Z;            (* int32 *)
  Type_ : string     (* the field [Type] *)
}.

Record executor_result := {
  Total : Z;         (* uint64 *)
  Iops : Z;          (* uint64 *)
  Avg : Z;           (* time.Duration *)
  Min : Z;           (* time.Duration *)
  Max : Z            (* time.Duration *)
}.

(** Modelled from the spec: [executor.Report()] is declared in another file
    of the package.  Per the spec it is a query, callable once the executor
    is done, returning the measured Result together with an advisory error
    when some request failed.  An executor carries both as fields
    ([measured], [failure]); [Report] reads them. *)
Record executor := {
  Workload : workload;
  host : string;
  port : string;
  measured : executor_result;
  failure : option string
}.

Definition Report (e : executor) : executor_result * option string :=
  (measured e, failure e).

Record global_section := {
  Server : string;
  Port : string;
  TSLMode : bool;
  Block_size : Z;
  Duration : Z
}.

(** [Workloads] is a Go map; ranging over it visits the entries in an order
    the runtime chooses.  The list is the map's entries in the order of that
    visit. *)
Record tomlConfig := {
  Global : global_section;
  Workloads : list (string * workload)
}.

(** ** The aggregation loop of [report] *)

(** The local variables of [report]. *)
Record locals := {
  overall_requests : Z;
  overall_get_requests : Z;
  overall_put_requests : Z;
  overall_get_lat_max : Z;
  overall_get_lat_min : Z;
  overall_put_lat_max : Z;
  overall_put_lat_min : Z;
  overall_iops : Z;
  overall_get_iops : Z;
  overall_put_iops : Z;
  overall_get_avg_lat : Z;
  overall_put_avg_lat : Z;
  errors : list string
}.

Definition locals_init : locals :=
  {| overall_requests := 0; overall_get_requests := 0;
     overall_put_requests := 0;
     overall_get_lat_max := 0; overall_get_lat_min := 0;
     overall_put_lat_max := 0; overall_put_lat_min := 0;
     overall_iops := 0; overall_get_iops := 0; overall_put_iops := 0;
     overall_get_avg_lat := 0; overall_put_avg_lat := 0;
     errors := [] |}.

(** [time.Duration(float64(results.Avg) * float64(results.Total))] *)
Definition weighted (results : executor_result) : Z :=
  F64.to_int64 (F64.mul (F64.of_int (Avg results)) (F64.of_int (Total results))).

(** [if lat_max < results.Max { lat_max = results.Max }] *)
Definition merge_max (lat_max : Z) (results : executor_result) : Z :=
  if lat_max <? Max results then Max results else lat_max.

(** [if lat_min == 0 { lat_min = results.Min }]
    [if lat_min > results.Min { lat_min = results.Min }] *)
Definition merge_min (lat_min : Z) (results : executor_result) : Z :=
  let lat_min := if lat_min =? 0 then Min results else lat_min in
  if lat_min >? Min results then Min results else lat_min.

(** One iteration of [for _, executor := range executors]. *)
Definition report_iter (v : locals) (executor : executor) : locals :=
  let '(results, err) := Report executor in
  let errors' :=
    match err with Some e => errors v ++ [e] | None => errors v end in
  let overall_requests' := Int.add_u64 (overall_requests v) (Total results) in
  if String.eqb (Type_ (Workload executor)) "GET" then
    {| overall_requests := overall_requests';
       overall_get_requests := Int.add_u64 (overall_get_requests v) (Total results);
       overall_put_requests := overall_put_requests v;
       overall_get_lat_max := merge_max (overall_get_lat_max v) results;
       overall_get_lat_min := merge_min (overall_get_lat_min v) results;
       overall_put_lat_max := overall_put_lat_max v;
       overall_put_lat_min := overall_put_lat_min v;
       overall_iops := Int.add_u64 (overall_iops v) (Iops results);
       overall_get_iops := Int.add_u64 (overall_get_iops v) (Iops results);
       overall_put_iops := overall_put_iops v;
       overall_get_avg_lat := Int.add_i64 (overall_get_avg_lat v) (weighted results);
       overall_put_avg_lat := overall_put_avg_lat v;
       errors := errors' |}
  else
    {| overall_requests := overall_requests';
       overall_get_requests := overall_get_requests v;
       overall_put_requests := Int.add_u64 (overall_put_requests v) (Total results);
       overall_get_lat_max := overall_get_lat_max v;
       overall_get_lat_min := overall_get_lat_min v;
       overall_put_lat_max := merge_max (overall_put_lat_max v) results;
       overall_put_lat_min := merge_min (overall_put_lat_min v) results;
       overall_iops := Int.add_u64 (overall_iops v) (Iops results);
       overall_get_iops := overall_get_iops v;
       overall_put_iops := Int.add_u64 (overall_put_iops v) (Iops results);
       overall_get_avg_lat := overall_get_avg_lat v;
       overall_put_avg_lat := Int.add_i64 (overall_put_avg_lat v) (weighted results);
       errors := errors' |}.

(** [if requests != 0 { avg = time.Duration(float64(avg) / float64(requests)) }] *)
Definition average (avg_lat requests : Z) : Z :=
  if requests =? 0 then avg_lat
  else F64.to_int64 (F64.div (F64.of_int avg_lat) (F64.of_int requests)).

Definition report_averages (v : locals) : locals :=
  {| overall_requests := overall_requests v;
     overall_get_requests := overall_get_requests v;
     overall_put_requests := overall_put_requests v;
     overall_get_lat_max := overall_get_lat_max v;
     overall_get_lat_min := overall_get_lat_min v;
     overall_put_lat_max := overall_put_lat_max v;
     overall_put_lat_min := overall_put_lat_min v;
     overall_iops := overall_iops v;
     overall_get_iops := overall_get_iops v;
     overall_put_iops := overall_put_iops v;
     overall_get_avg_lat :=
       average (overall_get_avg_lat v) (overall_get_requests v);
     overall_put_avg_lat :=
       average (overall_put_avg_lat v) (overall_put_requests v);
     errors := errors v |}.

(** Lines 146-202 of [report]: the loop over [executors], then the two
    divisions. *)
Definition aggregate (executors : list executor) : locals :=
  report_averages (fold_left report_iter executors locals_init).

(** ** The report file *)

(** [d.Nanoseconds()/1e3] *)
Definition usec (d : Z) : Z := Int.quot_i64 d 1000.

(** The line feed. *)
Definition LF : string := String (Ascii.ascii_of_nat 10) "".

(** The fifteen [f.WriteString(fmt.Sprintf(...))] calls, in order. *)
Definition report_lines (v : locals) : list string :=
  [ "[global]" +:+ LF;
    "overall_requests=" +:+ pretty (overall_requests v) +:+ LF;
    "overall_iops=" +:+ pretty (overall_iops v) +:+ LF;
    LF +:+ "[get]" +:+ LF;
    "overall_requests=" +:+ pretty (overall_get_requests v) +:+ LF;
    "overall_iops=" +:+ pretty (overall_get_iops v) +:+ LF;
    "overall_lat_min=" +:+ pretty (usec (overall_get_lat_min v)) +:+ "usec" +:+ LF;
    "overall_lat_max=" +:+ pretty (usec (overall_get_lat_max v)) +:+ "usec" +:+ LF;
    "overall_lat_avg=" +:+ pretty (usec (overall_get_avg_lat v)) +:+ "usec" +:+ LF;
    LF +:+ "[put]" +:+ LF;
    "overall_requests=" +:+ pretty (overall_put_requests v) +:+ LF;
    "overall_iops=" +:+ pretty (overall_put_iops v) +:+ LF;
    "overall_lat_min=" +:+ pretty (usec (overall_put_lat_min v)) +:+ "usec" +:+ LF;
    "overall_lat_max=" +:+ pretty (usec (overall_put_lat_max v)) +:+ "usec" +:+ LF;
    "overall_lat_avg=" +:+ pretty (usec (overall_put_avg_lat v)) +:+ "usec" +:+ LF ].

Definition report_text (v : locals) : string :=
  fold_left String.append (report_lines v) "".

(** ** The world *)

(** One argument of a [log.Println] or [log.Printf] call; an entry of the
    log is the list of the call's arguments.  The logger's time stamp and
    the layout of the arguments are not represented. *)
Inductive log_arg :=
| LStr (s : string)
| LUint (n : Z)
| LInt (n : Z)
| LDur (d : Z)
| LBool (b : bool)
| LErr (e : string).

(** The command line after [flag.Parse()]. *)
Record flags := {
  conf_file : string;
  results_file : string;
  showVersion : bool;
  cpu_profile : bool;
  mem_profile : bool;
  enable_log : bool
}.

(** The package-level variables the program assigns. *)
Record vars := {
  start_time : Z;                 (* time.Time, as an instant in ns *)
  end_time : Z;
  wl_id : Z;                      (* int32 *)
  dataBfr : list Z;               (* []byte *)
  config : tomlConfig;
  executors : list executor;
  log_file : option string
}.

Record world := {
  w_flags : flags;
  w_vars : vars;
  w_files : gmap string string;   (* the files on disk, by path *)
  w_log : list (list log_arg)     (* what the logger has printed *)
}.

(** What the program obtains from outside itself. *)
Record env := {
  (** whether [os.Create(path)] succeeds *)
  create_ok : string -> bool;
  (** [LoadConfig(path)]: the configuration and the error *)
  LoadConfig : string -> tomlConfig * option string;
  (** the readings of [time.Now()] in [start_executors] and in
      [wait_for_completion], and the stamp of the log file's name *)
  now_start : Z;
  now_end : Z;
  now_stamp : string;
  (** the [i]-th value of [rand.Int()] *)
  rand_Int : nat -> Z;
  (** what an executor has measured once the barrier has fired *)
  run : executor -> executor_result * option string;
  (** the bytes the profiler writes *)
  cpu_profile_data : string;
  heap_profile_data : string
}.

Definition set_vars (f : vars -> vars) (w : world) : world :=
  {| w_flags := w_flags w; w_vars := f (w_vars w);
     w_files := w_files w; w_log := w_log w |}.

Definition set_files (f : gmap string string -> gmap string string)
    (w : world) : world :=
  {| w_flags := w_flags w; w_vars := w_vars w;
     w_files := f (w_files w); w_log := w_log w |}.

Definition add_log (entry : list log_arg) (w : world) : world :=
  {| w_flags := w_flags w; w_vars := w_vars w;
     w_files := w_files w; w_log := w_log w ++ [entry] |}.

Definition with_wl_id (x : Z) (v : vars) : vars :=
  {| start_time := start_time v; end_time := end_time v; wl_id := x;
     dataBfr := dataBfr v; config := config v; executors := executors v;
     log_file := log_file v |}.

Definition with_executors (x : list executor) (v : vars) : vars :=
  {| start_time := start_time v; end_time := end_time v; wl_id := wl_id v;
     dataBfr := dataBfr v; config := config v; executors := x;
     log_file := log_file v |}.

Definition with_config (x : tomlConfig) (v : vars) : vars :=
  {| start_time := start_time v; end_time := end_time v; wl_id := wl_id v;
     dataBfr := dataBfr v; config := x; executors := executors v;
     log_file := log_file v |}.

Definition with_dataBfr (x : list Z) (v : vars) : vars :=
  {| start_time := start_time v; end_time := end_time v; wl_id := wl_id v;
     dataBfr := x; config := config v; executors := executors v;
     log_file := log_file v |}.

Definition with_start_time (x : Z) (v : vars) : vars :=
  {| start_time := x; end_time := end_time v; wl_id := wl_id v;
     dataBfr := dataBfr v; config := config v; executors := executors v;
     log_file := log_file v |}.

Definition with_end_time (x : Z) (v : vars) : vars :=
  {| start_time := start_time v; end_time := x; wl_id := wl_id v;
     dataBfr := dataBfr v; config := config v; executors := executors v;
     log_file := log_file v |}.

Definition with_log_file (x : option string) (v : vars) : vars :=
  {| start_time := start_time v; end_time := end_time v; wl_id := wl_id v;
     dataBfr := dataBfr v; config := config v; executors := executors v;
     log_file := x |}.

(** ** The process monad *)

(** How a call ends: it returns, the process exits ([os.Exit], [log.Fatal]),
    or the goroutine is panicking. *)
Inductive outcome (A : Type) :=
| Returned (a : A) (w : world)
| Exited (code : Z) (w : world)
| Panicked (v : string) (w : world).

Arguments Returned {A} a w.
Arguments Exited {A} code w.
Arguments Panicked {A} v w.

Definition M (A : Type) : Type := world -> outcome A.

Definition ret {A} (a : A) : M A := fun w => Returned a w.

Definition bind {A B} (m : M A) (k : A -> M B) : M B :=
  fun w =>
    match m w with
    | Returned a w' => k a w'
    | Exited c w' => Exited c w'
    | Panicked v w' => Panicked v w'
    end.

Declare Scope go_scope.
Delimit Scope go_scope with go.
Notation "x <- m ;; k" := (bind m (fun x => k))
  (at level 100, m at next level, right associativity) : go_scope.
Notation "m ;; k" := (bind m (fun _ => k))
  (at level 100, right associativity) : go_scope.
Local Open Scope go_scope.

Definition world_of {A} (o : outcome A) : world :=
  match o with
  | Returned _ w | Exited _ w | Panicked _ w => w
  end.

Definition get {A} (f : world -> A) : M A := fun w => Returned (f w) w.
Definition modify (f : world -> world) : M unit := fun w => Returned tt (f w).
Definition os_Exit {A} (code : Z) : M A := fun w => Exited code w.
Definition panic {A} (v : string) : M A := fun w => Panicked v w.

Definition log_Println (entry : list log_arg) : M unit := modify (add_log entry).
Definition log_Fatal {A} (entry : list log_arg) : M A :=
  log_Println entry ;; os_Exit 1.

Fixpoint for_range {A} (l : list A) (body : A -> M unit) : M unit :=
  match l with
  | [] => ret tt
  | x :: l' => body x ;; for_range l' body
  end.

(** [os.Create(path)]: the file exists and is empty afterwards, or the call
    fails and nothing changes. *)
Definition os_Create (e : env) (path : string) : M bool :=
  if create_ok e path
  then modify (set_files (insert path "")) ;; ret true
  else ret false.

(** [f.WriteString(s)] on the file created at [path]. *)
Definition WriteString (path s : string) : M unit :=
  modify (set_files (fun fs => <[path := default "" (fs !! path) +:+ s]> fs)).

(** ** The program *)

Definition AppVersion : string := "1.0.0".

(** [defer atomic.AddInt32(&wl_id, 1); return wl_id]: the result is fixed by
    the [return] statement, then the deferred call adds one. *)
Definition get_workload_id : M Z :=
  id <- get (fun w => wl_id (w_vars w)) ;;
  modify (set_vars (fun v => with_wl_id (Int.add_i32 (wl_id v) 1) v)) ;;
  ret id.

Definition start_cpu_profile (e : env) : M unit :=
  on <- get (fun w => cpu_profile (w_flags w)) ;;
  if on : bool then
    log_Println [LStr "CPU Profile enabled"] ;;
    ok <- os_Create e "cpu_profile" ;;
    if ok : bool then
      (* StartCPUProfile, and StopCPUProfile deferred to this function's end *)
      WriteString "cpu_profile" (cpu_profile_data e)
    else log_Fatal [LErr "cpu_profile"]
  else ret tt.

(** [pprof.StopCPUProfile()] when profiling is on: nothing the world
    records. *)
Definition stop_cpu_profile : M unit := ret tt.

Definition write_mem_profile (e : env) : M unit :=
  on <- get (fun w => mem_profile (w_flags w)) ;;
  if on : bool then
    log_Println [LStr "MEM Profile enabled"] ;;
    ok <- os_Create e "mem_profile" ;;
    if ok : bool then WriteString "mem_profile" (heap_profile_data e)
    else log_Fatal [LErr "mem_profile"]
  else ret tt.

Definition parse_cmd_line_args : M unit :=
  v <- get (fun w => showVersion (w_flags w)) ;;
  if v : bool then
    log_Println [LStr "Running Version %s"; LStr AppVersion] ;; os_Exit 0
  else ret tt.

(** [byte(x)] *)
Definition byte_of (x : Z) : Z := x mod 256.

Definition load_test_Config (e : env) : M unit :=
  path <- get (fun w => conf_file (w_flags w)) ;;
  let '(cfg, err) := LoadConfig e path in
  modify (set_vars (with_config cfg)) ;;
  match err with
  | Some msg =>
      log_Println [LErr msg] ;; log_Fatal [LStr "Failed to parse config file"]
  | None =>
      let g := Global cfg in
      log_Println
        [LStr "Running test on %s:%s, tls mode=%v, block size=%d, test timeout %v";
         LStr (Server g); LStr (Port g); LBool (TSLMode g);
         LInt (Block_size g); LDur (Duration g)] ;;
      if Block_size g <? 0 then panic "makeslice: len out of range"
      else
        modify (set_vars (with_dataBfr
          (map (fun i => byte_of (rand_Int e i))
               (seq 0 (Z.to_nat (Block_size g))))))
  end.

Definition zero_result : executor_result :=
  {| Total := 0; Iops := 0; Avg := 0; Min := 0; Max := 0 |}.

(** The body of the loop of [generate_executors], for one entry of
    [config.Workloads]. *)
Definition add_executor (cfg : tomlConfig) (entry : string * workload) : M unit :=
  let '(Name, workload) := entry in
  log_Println [LStr "Adding executor for "; LStr Name] ;;
  id <- get_workload_id ;;
  let workload := {| Id := id; Type_ := Type_ workload |} in
  let e := {| Workload := workload; host := Server (Global cfg);
              port := Port (Global cfg);
              measured := zero_result; failure := None |} in
  modify (set_vars (fun v => with_executors (executors v ++ [e]) v)).

Definition generate_executors : M unit :=
  cfg <- get (fun w => config (w_vars w)) ;;
  for_range (Workloads cfg) (add_executor cfg).

(** Modelled from the spec: [executor.Start] is declared in another file of
    the package.  Starting records the time; once the completion barrier
    has fired every executor holds what it measured. *)
Definition start_executors (e : env) : M unit :=
  modify (set_vars (with_start_time (now_start e))).

Definition finish (e : env) (x : executor) : executor :=
  {| Workload := Workload x; host := host x; port := port x;
     measured := fst (run e x); failure := snd (run e x) |}.

Definition wait_for_completion (e : env) : M unit :=
  log_Println [LStr "Wait for executors to finish"] ;;
  modify (set_vars (fun v => with_executors (map (finish e) (executors v)) v)) ;;
  modify (set_vars (with_end_time (now_end e))).

(** The fourteen [log.Println] calls of [report] before the file is
    created. *)
Definition report_log (duration : Z) (v : locals) : list (list log_arg) :=
  [ [LStr "Duration: "; LDur duration];
    [LStr "Overall Results: "];
    [LStr "Overall Requests: "; LUint (overall_requests v)];
    [LStr "Overall GET Requests: "; LUint (overall_get_requests v)];
    [LStr "Overall GET Min Latency: "; LDur (overall_get_lat_min v)];
    [LStr "Overall GET Max Latency: "; LDur (overall_get_lat_max v)];
    [LStr "Overall GET Avg Latency: "; LDur (overall_get_avg_lat v)];
    [LStr "Overall PUT Requests: "; LUint (overall_put_requests v)];
    [LStr "Overall PUT Min Latency: "; LDur (overall_put_lat_min v)];
    [LStr "Overall PUT Max Latency: "; LDur (overall_put_lat_max v)];
    [LStr "Overall PUT Avg Latency: "; LDur (overall_put_avg_lat v)];
    [LStr "Overall IOPS: "; LUint (overall_iops v)];
    [LStr "Overall GET IOPS: "; LUint (overall_get_iops v)];
    [LStr "Overall PUT IOPS: "; LUint (overall_put_iops v)] ].

(** [t.Sub(u)] on [time.Time]: the difference, kept within the range of a
    [time.Duration]. *)
Definition Time_Sub (t u : Z) : Z :=
  Z.max (- 2 ^ 63) (Z.min (2 ^ 63 - 1) (t - u)).

Definition report (e : env) : M Z :=
  vs <- get w_vars ;;
  let duration := Time_Sub (end_time vs) (start_time vs) in
  let v := aggregate (executors vs) in
  for_range (report_log duration v) log_Println ;;
  f <- get (fun w => results_file (w_flags w)) ;;
  ok <- os_Create e f ;;
  if ok : bool then
    for_range (report_lines v) (WriteString f) ;;
    if (0 <? Z.of_nat (length (errors v))) then
      for_range (errors v) (fun err => log_Println [LErr err]) ;;
      ret 2
    else ret 0
  else log_Fatal [LErr f].

Definition configure_log_to_file (e : env) : M unit :=
  on <- get (fun w => enable_log (w_flags w)) ;;
  if on : bool then
    let file_name := now_stamp e +:+ "-loader.log" in
    ok <- os_Create e file_name ;;
    if ok : bool then modify (set_vars (with_log_file (Some file_name)))
    else log_Fatal [LStr "failed to open log file"]
  else ret tt.

(** [log_file.Close()] when the log file is open: nothing the world
    records. *)
Definition close_log_file : M unit := ret tt.

Definition exit (err_code : Z) : M unit :=
  if negb (err_code =? 0) then panic "Test failed with error"
  else log_Println [LStr "Test completed successfully"].

(** ** Deferred calls *)

(** A deferred call runs when its function returns or panics.  It is given
    the value the goroutine is panicking with, if any, and returns what is
    left of it: [None] once [recover()] has taken it. *)
Definition deferred : Type := option string -> M (option string).

(** A deferred function that does not call [recover]. *)
Definition plain (f : M unit) : deferred := fun p => f ;; ret p.

(** [if err := recover(); err != nil { log.Println(err); os.Exit(1) }] *)
Definition handle_exit : deferred :=
  fun p =>
    match p with
    | Some err => log_Println [LErr err] ;; os_Exit 1
    | None => ret None
    end.

(** Runs the deferred calls, last registered first (the list's order). *)
Fixpoint unwind (ds : list deferred) (p : option string) : M unit :=
  match ds with
  | [] => match p with None => ret tt | Some v => panic v end
  | d :: ds' =>
      fun w =>
        match d p w with
        | Returned p' w' => unwind ds' p' w'
        | Exited c w' => Exited c w'
        | Panicked v w' => unwind ds' (Some v) w'
        end
  end.

Definition with_defers (ds : list deferred) (body : M unit) : M unit :=
  fun w =>
    match body w with
    | Returned _ w' => unwind ds None w'
    | Exited c w' => Exited c w'
    | Panicked v w' => unwind ds (Some v) w'
    end.

(** The part of [main] between the [defer] statements and [report]. *)
Definition run_load (e : env) : M unit :=
  start_cpu_profile e ;;
  load_test_Config e ;;
  generate_executors ;;
  start_executors e ;;
  wait_for_completion e.

(** The calls [main] defers, in the order they run: the last deferred
    first. *)
Definition deferred_calls (e : env) : list deferred :=
  [ plain (write_mem_profile e); plain stop_cpu_profile;
    plain close_log_file; handle_exit ].

Definition main (e : env) : M unit :=
  parse_cmd_line_args ;;
  configure_log_to_file e ;;
  with_defers (deferred_calls e)
    (run_load e ;;
     err_code <- report e ;;
     exit err_code).

(** The status the process ends with: 0 when [main] returns, the argument
    of [os.Exit], 2 when a panic is not recovered. *)
Definition exit_status (o : outcome unit) : Z :=
  match o with
  | Returned _ _ => 0
  | Exited c _ => c
  | Panicked _ _ => 2
  end.

(** * Specification vocabulary *)

(** ** Buckets, sums and extremes *)

(** The two buckets: an executor is in the GET bucket when its workload's
    type is the string GET, and in the PUT bucket otherwise. *)
Definition get_bucket (es : list executor) : list executor :=
  filter (fun x => Type_ (Workload x) = "GET") es.

Definition put_bucket (es : list executor) : list executor :=
  filter (fun x => Type_ (Workload x) <> "GET") es.

(** The Results of a list of executors, in order. *)
Definition results (es : list executor) : list executor_result :=
  map measured es.

(** The sum of a field over Results, as an integer without bound. *)
Definition total_of (f : executor_result -> Z) (rs : list executor_result) : Z :=
  fold_right (fun r s => f r + s) 0 rs.

(** [x] is the least (the greatest) value of [f] over [rs]. *)
Definition least_of (f : executor_result -> Z) (rs : list executor_result)
    (x : Z) : Prop :=
  (exists r, In r rs /\ f r = x) /\ (forall r, In r rs -> x <= f r).

Definition greatest_of (f : executor_result -> Z) (rs : list executor_result)
    (x : Z) : Prop :=
  (exists r, In r rs /\ f r = x) /\ (forall r, In r rs -> f r <= x).

(** What the loop leaves in each local variable is a left fold over the
    Results of all executors, or of one bucket. *)
Definition folded (es : list executor) : locals :=
  let all := results es in
  let gets := results (get_bucket es) in
  let puts := results (put_bucket es) in
  let count f := fold_left (fun a r => Int.add_u64 a (f r)) in
  let weigh := fold_left (fun a r => Int.add_i64 a (weighted r)) in
  {| overall_requests := count Total all 0;
     overall_get_requests := count Total gets 0;
     overall_put_requests := count Total puts 0;
     overall_get_lat_max := fold_left merge_max gets 0;
     overall_get_lat_min := fold_left merge_min gets 0;
     overall_put_lat_max := fold_left merge_max puts 0;
     overall_put_lat_min := fold_left merge_min puts 0;
     overall_iops := count Iops all 0;
     overall_get_iops := count Iops gets 0;
     overall_put_iops := count Iops puts 0;
     overall_get_avg_lat := weigh gets 0;
     overall_put_avg_lat := weigh puts 0;
     errors := omap failure es |}.

(** The twelve figures of the report, without the collected errors. *)
Definition figures (v : locals) : locals :=
  {| overall_requests := overall_requests v;
     overall_get_requests := overall_get_requests v;
     overall_put_requests := overall_put_requests v;
     overall_get_lat_max := overall_get_lat_max v;
     overall_get_lat_min := overall_get_lat_min v;
     overall_put_lat_max := overall_put_lat_max v;
     overall_put_lat_min := overall_put_lat_min v;
     overall_iops := overall_iops v;
     overall_get_iops := overall_get_iops v;
     overall_put_iops := overall_put_iops v;
     overall_get_avg_lat := overall_get_avg_lat v;
     overall_put_avg_lat := overall_put_avg_lat v;
     errors := [] |}.


Definition reports_error (x : executor) : bool :=
  match snd (Report x) with Some _ => true | None => false end.

(** The status [report] returns. *)
Definition report_status (es : list executor) : Z :=
  if existsb reports_error es then 2 else 0.

(** ** Extremes merged over a whole bucket *)

(** The Results have no negative latency. *)
Definition nonneg_latencies (rs : list executor_result) : Prop :=
  forall r, In r rs -> 0 <= Min r /\ 0 <= Max r.

(** No Result has a minimum of zero, or the last one has. *)
Definition settled (rs : list executor_result) : Prop :=
  (forall r, In r rs -> 0 < Min r) \/
  (exists rs' r, rs = rs' ++ [r] /\ Min r = 0).

(** [lo] and [hi] are the extremes of [rs] with no Result left out: both
    zero for no Results; otherwise [hi] is the greatest [Max], and [lo] the
    least [Min] when [rs] is settled. *)
Definition merges_all (rs : list executor_result) (lo hi : Z) : Prop :=
  (rs = [] -> lo = 0 /\ hi = 0) /\
  (rs <> [] -> greatest_of Max rs hi /\ (settled rs -> least_of Min rs lo)).

(** ** The weighted average *)



(** ** Integers held by a float64 *)



(** ** Latencies in the report file *)

(** [q] is [d / 1000] rounded toward zero. *)
Definition toward_zero (d q : Z) : Prop :=
  Z.abs (1000 * q) <= Z.abs d < Z.abs (1000 * q) + 1000 /\ 0 <= q * d.

(** The six latencies of the report: the position of the line that prints
    each (counting the lines of the file from 0), its key, its value. *)
Definition latency_fields (v : locals) : list (nat * string * Z) :=
  [ (6%nat, "overall_lat_min=", overall_get_lat_min v);
    (7%nat, "overall_lat_max=", overall_get_lat_max v);
    (8%nat, "overall_lat_avg=", overall_get_avg_lat v);
    (12%nat, "overall_lat_min=", overall_put_lat_min v);
    (13%nat, "overall_lat_max=", overall_put_lat_max v);
    (14%nat, "overall_lat_avg=", overall_put_avg_lat v) ].

(** The line printed for latency [d] under [key] shows [d] in whole
    microseconds, rounded toward zero; below one microsecond it shows 0. *)
Definition printed_in_usec (lines : list string) (field : nat * string * Z) : Prop :=
  let '(i, key, d) := field in
  (exists q, toward_zero d q /\
             lines !! i = Some (key +:+ pretty q +:+ "usec" +:+ LF)) /\
  (Z.abs d < 1000 -> lines !! i = Some (key +:+ "0usec" +:+ LF)).

(** The Results hold [int64] latencies. *)
Definition int64_latencies (es : list executor) : Prop :=
  forall x, In x es ->
    Int.is_i64 (Min (measured x)) /\ Int.is_i64 (Max (measured x)).

(** ** The world around [report] and [main] *)

Definition value_of {A} (o : outcome A) : option A :=
  match o with
  | Returned a _ => Some a
  | Exited _ _ | Panicked _ _ => None
  end.

(** The world after the logger has printed [entries]. *)
Definition add_logs (entries : list (list log_arg)) (w : world) : world :=
  {| w_flags := w_flags w; w_vars := w_vars w;
     w_files := w_files w; w_log := w_log w ++ entries |}.

(** The world after [report] has returned: the log has the figures and the
    errors, and the results file holds the report. *)
Definition reported (w : world) : world :=
  let vs := w_vars w in
  let v := aggregate (executors vs) in
  set_files (insert (results_file (w_flags w)) (report_text v))
    (add_logs (report_log (Time_Sub (end_time vs) (start_time vs)) v
               ++ map (fun err => [LErr err]) (errors v)) w).

(** [n] calls of [get_workload_id], one after the other: the values
    returned, in order. *)
Fixpoint calls (n : nat) : M (list Z) :=
  match n with
  | O => ret []
  | S n' =>
      id <- get_workload_id ;;
      ids <- calls n' ;;
      ret (id :: ids)
  end.

Definition ids_of (es : list executor) : list Z :=
  map (fun x => Id (Workload x)) es.

(** [main] up to the call of [report]. *)
Definition before_report (e : env) : M unit :=
  parse_cmd_line_args ;;
  configure_log_to_file e ;;
  run_load e.

(** The world when the process starts: the package-level variables hold
    their initial values, nothing is logged. *)
Definition initial (fl : flags) (fs : gmap string string) : world :=
  {| w_flags := fl;
     w_vars := {| start_time := 0; end_time := 0; wl_id := 0; dataBfr := [];
                  config := {| Global := {| Server := ""; Port := "";
                                            TSLMode := false; Block_size := 0;
                                            Duration := 0 |};
                               Workloads := [] |};
                  executors := []; log_file := None |};
     w_files := fs;
     w_log := [] |}.

(** The flags' defaults, set in [init]. *)
Definition default_flags : flags :=
  {| conf_file := "example.toml"; results_file := "example.results";
     showVersion := false; cpu_profile := false; mem_profile := false;
     enable_log := false |}.

(** ** Generated executors, exits and written files *)

(** The executor the loop of [generate_executors] builds for a workload. *)
Definition executor_for (cfg : tomlConfig) (id : Z) (wl : workload) : executor :=
  {| Workload := {| Id := id; Type_ := Type_ wl |};
     host := Server (Global cfg); port := Port (Global cfg);
     measured := zero_result; failure := None |}.

(** One executor per entry of [Workloads], numbered from [first]. *)
Definition generated (cfg : tomlConfig) (first : Z) : list executor :=
  imap (fun k entry => executor_for cfg (Int.wrap_i32 (first + Z.of_nat k)) (snd entry))
       (Workloads cfg).

(** The log entry of one iteration of [generate_executors]. *)
Definition adding (entry : string * workload) : list log_arg :=
  [LStr "Adding executor for "; LStr (fst entry)].

(** A call that ends the process does so with status 1. *)
Definition fatal_only {A} (m : M A) : Prop :=
  forall w c w', m w = Exited c w' -> c = 1.

(** A call that does not panic. *)
Definition no_panic {A} (m : M A) : Prop :=
  forall w v w', m w <> Panicked v w'.

(** The paths [main] may write to: the log file, the two profiles and the
    results file. *)
Definition written_paths (e : env) (fl : flags) : list string :=
  [now_stamp e +:+ "-loader.log"; "cpu_profile"; results_file fl; "mem_profile"].

(** [w'] has the flags of [w] and, outside the written paths, its files. *)
Definition same_outside (e : env) (w w' : world) : Prop :=
  w_flags w' = w_flags w /\
  forall path, ~ In path (written_paths e (w_flags w)) ->
    w_files w' !! path = w_files w !! path.

Definition writes_within (e : env) {A} (m : M A) : Prop :=
  forall w, same_outside e w (world_of (m w)).

(** ** Sample inputs *)

Definition GET_executor (r : executor_result) : executor :=
  {| Workload := {| Id := 0; Type_ := "GET" |}; host := "localhost";
     port := "8080"; measured := r; failure := None |}.

Definition PUT_executor (r : executor_result) : executor :=
  {| Workload := {| Id := 0; Type_ := "PUT" |}; host := "localhost";
     port := "8080"; measured := r; failure := None |}.

(** A GET executor of 100 requests and a PUT executor of 50. *)
Definition get_and_put : list executor :=
  [ GET_executor {| Total := 100; Iops := 50; Avg := 2000000;
                    Min := 1000000; Max := 10000000 |};
    PUT_executor {| Total := 50; Iops := 25; Avg := 4000000;
                    Min := 2000000; Max := 20000000 |} ].

(** Two GET executors: one with five requests between 100 and 200
    microseconds, then one that completed no request. *)
Definition busy_then_idle : list executor :=
  [ GET_executor {| Total := 5; Iops := 1; Avg := 150000;
                    Min := 100000; Max := 200000 |};
    GET_executor zero_result ].

(** Three GET executors: the idle one between two busy ones. *)
Definition idle_between_busy : list executor :=
  [ GET_executor {| Total := 5; Iops := 1; Avg := 150000;
                    Min := 100000; Max := 200000 |};
    GET_executor zero_result;
    GET_executor {| Total := 3; Iops := 1; Avg := 250000;
                    Min := 200000; Max := 300000 |} ].

(** One GET executor whose latencies are around one microsecond. *)
Definition sub_microsecond : list executor :=
  [ GET_executor {| Total := 4; Iops := 2; Avg := 1200;
                    Min := 999; Max := 1999 |} ].


(** A configuration with a GET and a PUT workload, and an environment in
    which every file can be created and the PUT executor ends with an error
    when [fails] is set. *)
Definition sample_config : tomlConfig :=
  {| Global := {| Server := "localhost"; Port := "8080"; TSLMode := false;
                  Block_size := 4; Duration := 1000000000 |};
     Workloads := [ ("read", {| Id := 0; Type_ := "GET" |});
                    ("write", {| Id := 0; Type_ := "PUT" |}) ] |}.

Definition sample_env (fails : bool) : env :=
  {| create_ok := fun _ => true;
     LoadConfig := fun _ => (sample_config, None);
     now_start := 0;
     now_end := 1000000000;
     now_stamp := "2016-01-01-00-00-00";
     rand_Int := fun i => Z.of_nat i;
     run := fun x =>
       if String.eqb (Type_ (Workload x)) "GET"
       then ({| Total := 100; Iops := 50; Avg := 2000000;
                Min := 1000000; Max := 10000000 |}, None)
       else ({| Total := 50; Iops := 25; Avg := 4000000;
                Min := 2000000; Max := 20000000 |},
             if fails then Some "executor completed with errors" else None);
     cpu_profile_data := "";
     heap_profile_data := "" |}.



(** The sample environment with another answer of [os.Create] and of
    [LoadConfig]. *)
Definition sample_env_with (ok : string -> bool)
    (load : string -> tomlConfig * option string) : env :=
  {| create_ok := ok;
     LoadConfig := load;
     now_start := now_start (sample_env false);
     now_end := now_end (sample_env false);
     now_stamp := now_stamp (sample_env false);
     rand_Int := rand_Int (sample_env false);
     run := run (sample_env false);
     cpu_profile_data := cpu_profile_data (sample_env false);
     heap_profile_data := "heap" |}.

(** * Properties *)

(** Splits a hypothesis [In x [a; b; ...]] over an explicit list into one
    goal per element. *)
Ltac each_member H :=
  repeat (hnf in H;
          match type of H with
          | _ \/ _ => destruct H as [<- | H]
          | False => destruct H
          end).

(** ** The loop, field by field *)

Lemma get_bucket_snoc es x :
  get_bucket (es ++ [x]) =
  if String.eqb (Type_ (Workload x)) "GET"
  then get_bucket es ++ [x] else get_bucket es.
Proof.
  unfold get_bucket. rewrite filter_app.
  destruct (String.eqb_spec (Type_ (Workload x)) "GET") as [E | E].
  - rewrite filter_cons_True by exact E. reflexivity.
  - rewrite filter_cons_False by exact E. by rewrite filter_nil, app_nil_r.
Qed.

Lemma put_bucket_snoc es x :
  put_bucket (es ++ [x]) =
  if String.eqb (Type_ (Workload x)) "GET"
  then put_bucket es else put_bucket es ++ [x].
Proof.
  unfold put_bucket. rewrite filter_app.
  destruct (String.eqb_spec (Type_ (Workload x)) "GET") as [E | E].
  - rewrite filter_cons_False by (intros N; apply N, E).
    by rewrite filter_nil, app_nil_r.
  - rewrite filter_cons_True by exact E. reflexivity.
Qed.

Lemma results_snoc es x : results (es ++ [x]) = results es ++ [measured x].
Proof. unfold results. by rewrite map_app. Qed.

Lemma loop_folded es : fold_left report_iter es locals_init = folded es.
Proof.
  induction es as [| x es IH] using rev_ind; [reflexivity |].
  rewrite fold_left_app. cbn [fold_left]. rewrite IH. clear IH.
  destruct x as [wl h p m [f |]];
  unfold report_iter, folded, Report.
  all: rewrite get_bucket_snoc, put_bucket_snoc, results_snoc, omap_app.
  all: cbn [overall_requests overall_get_requests overall_put_requests
       overall_get_lat_max overall_get_lat_min overall_put_lat_max
       overall_put_lat_min overall_iops overall_get_iops overall_put_iops
       overall_get_avg_lat overall_put_avg_lat errors omap].
  all: cbn [Workload measured failure].
  all: destruct (String.eqb (Type_ wl) "GET");
    rewrite ?results_snoc, ?fold_left_app; cbn [fold_left measured];
    rewrite ?app_nil_r; reflexivity.
Qed.

Lemma aggregate_folded es : aggregate es = report_averages (folded es).
Proof. unfold aggregate. by rewrite loop_folded. Qed.

(** ** Counting in [uint64] *)

Section Counting.

Variable f : executor_result -> Z.

Lemma total_of_snoc rs r : total_of f (rs ++ [r]) = total_of f rs + f r.
Proof.
  unfold total_of. induction rs as [| r' rs IH]; cbn; [lia |].
  rewrite IH. lia.
Qed.

Lemma total_of_nonneg rs :
  (forall r, In r rs -> 0 <= f r) -> 0 <= total_of f rs.
Proof.
  unfold total_of. induction rs as [| r rs IH]; cbn; intros H; [lia |].
  specialize (H r (or_introl eq_refl)) as H0.
  assert (0 <= fold_right (fun r s => f r + s) 0 rs) by (apply IH; auto).
  lia.
Qed.

(** The accumulated count is the sum, modulo [2 ^ 64]. *)
Lemma count_wraps rs :
  fold_left (fun a r => Int.add_u64 a (f r)) rs 0 =
  Int.wrap_u64 (total_of f rs).
Proof.
  induction rs as [| r rs IH] using rev_ind; [reflexivity |].
  rewrite fold_left_app, total_of_snoc. cbn [fold_left]. rewrite IH.
  unfold Int.add_u64, Int.wrap_u64. apply Zplus_mod_idemp_l.
Qed.

(** Every executor is in exactly one bucket, so a sum over all executors
    splits into the sums over the two buckets. *)
Lemma total_of_buckets es :
  total_of f (results es) =
  total_of f (results (get_bucket es)) + total_of f (results (put_bucket es)).
Proof.
  unfold get_bucket, put_bucket.
  induction es as [| x es IH]; [reflexivity |].
  change (results (x :: es)) with (measured x :: results es).
  change (total_of f (measured x :: results es))
    with (f (measured x) + total_of f (results es)).
  destruct (decide (Type_ (Workload x) = "GET")) as [E | E].
  - rewrite (filter_cons_True (fun x => Type_ (Workload x) = "GET")) by exact E.
    rewrite (filter_cons_False (fun x => Type_ (Workload x) <> "GET"))
      by (intros N; exact (N E)).
    change (results (x :: ?l)) with (measured x :: results l).
    change (total_of f (measured x :: ?l)) with (f (measured x) + total_of f l).
    lia.
  - rewrite (filter_cons_False (fun x => Type_ (Workload x) = "GET")) by exact E.
    rewrite (filter_cons_True (fun x => Type_ (Workload x) <> "GET")) by exact E.
    change (results (x :: ?l)) with (measured x :: results l).
    change (total_of f (measured x :: ?l)) with (f (measured x) + total_of f l).
    lia.
Qed.

End Counting.

Lemma wrap_u64_small z : 0 <= z < 2 ^ 64 -> Int.wrap_u64 z = z.
Proof. intros H. unfold Int.wrap_u64. apply Z.mod_small, H. Qed.

Lemma wrap_u64_add x y :
  Int.wrap_u64 (Int.wrap_u64 x + Int.wrap_u64 y) = Int.wrap_u64 (x + y).
Proof. unfold Int.wrap_u64. symmetry. apply Zplus_mod. Qed.

Lemma buckets_partition es : Permutation es (get_bucket es ++ put_bucket es).
Proof.
  unfold get_bucket, put_bucket.
  induction es as [| x es IH]; [reflexivity |].
  destruct (decide (Type_ (Workload x) = "GET")) as [E | E].
  - rewrite (filter_cons_True (fun x => Type_ (Workload x) = "GET")) by exact E.
    rewrite (filter_cons_False (fun x => Type_ (Workload x) <> "GET"))
      by (intros N; exact (N E)).
    cbn. by constructor.
  - rewrite (filter_cons_False (fun x => Type_ (Workload x) = "GET")) by exact E.
    rewrite (filter_cons_True (fun x => Type_ (Workload x) <> "GET")) by exact E.
    by apply Permutation_cons_app.
Qed.

Lemma buckets_disjoint es x : x ∈ get_bucket es -> x ∈ put_bucket es -> False.
Proof.
  unfold get_bucket, put_bucket. rewrite !list_elem_of_filter.
  intros [E _] [N _]. exact (N E).
Qed.

(** ** Merging the extremes *)

Section Extremes.

Implicit Types (rs : list executor_result) (r : executor_result).

Lemma merge_max_is_max a r : merge_max a r = Z.max a (Max r).
Proof. unfold merge_max. destruct (Z.ltb_spec a (Max r)); lia. Qed.

(** The merged maximum is the start value or some Result's [Max], and is
    above both. *)
Lemma merged_max_bounds rs : forall a,
  let m := fold_left merge_max rs a in
  a <= m /\ (forall r, In r rs -> Max r <= m) /\
  (m = a \/ exists r, In r rs /\ Max r = m).
Proof.
  induction rs as [| r rs IH]; intros a; cbn.
  - repeat split; [lia | tauto | by left].
  - destruct (IH (merge_max a r)) as (Ha & Hall & Hex).
    rewrite merge_max_is_max in *.
    repeat split.
    + lia.
    + intros r' [<- | Hin]; [lia | by apply Hall].
    + destruct Hex as [Hm | (r' & Hin & Hr')].
      * destruct (Z.max_spec a (Max r)) as [[_ E] | [_ E]].
        -- right. exists r. split; [by left | congruence].
        -- left. congruence.
      * right. exists r'. split; [by right | exact Hr'].
Qed.

Lemma merge_min_zero r : merge_min 0 r = Min r.
Proof. unfold merge_min. cbn. destruct (Z.gtb_spec (Min r) (Min r)); lia. Qed.

Lemma merge_min_nonzero a r : a <> 0 -> merge_min a r = Z.min a (Min r).
Proof.
  intros Ha. unfold merge_min.
  destruct (Z.eqb_spec a 0); [done |].
  destruct (Z.gtb_spec a (Min r)); lia.
Qed.

(** From a positive running value and positive samples the merge is the
    ordinary minimum. *)
Lemma merged_min_positive rs : forall a,
  0 < a -> (forall r, In r rs -> 0 < Min r) ->
  let m := fold_left merge_min rs a in
  0 < m /\ m <= a /\ (forall r, In r rs -> m <= Min r) /\
  (m = a \/ exists r, In r rs /\ Min r = m).
Proof.
  induction rs as [| r rs IH]; intros a Ha Hpos; cbn.
  - repeat split; [lia | lia | tauto | by left].
  - assert (Hr : 0 < Min r) by (apply Hpos; by left).
    rewrite merge_min_nonzero by lia.
    destruct (IH (Z.min a (Min r))) as (Hm & Hle & Hall & Hex);
      [lia | intros r' Hin; apply Hpos; by right |].
    repeat split.
    + lia.
    + lia.
    + intros r' [<- | Hin]; [lia | by apply Hall].
    + destruct Hex as [E | (r' & Hin & Hr')].
      * destruct (Z.min_spec a (Min r)) as [[_ E'] | [_ E']].
        -- left. congruence.
        -- right. exists r. split; [by left | congruence].
      * right. exists r'. split; [by right | exact Hr'].
Qed.

(** The running minimum never becomes negative on non-negative samples. *)
Lemma merged_min_nonneg rs : forall a,
  0 <= a -> (forall r, In r rs -> 0 <= Min r) ->
  0 <= fold_left merge_min rs a.
Proof.
  induction rs as [| r rs IH]; intros a Ha Hpos; cbn; [exact Ha |].
  apply IH; [| intros r' Hin; apply Hpos; by right].
  assert (0 <= Min r) by (apply Hpos; by left).
  destruct (Z.eq_dec a 0) as [-> | Hne].
  - by rewrite merge_min_zero.
  - rewrite merge_min_nonzero by exact Hne. lia.
Qed.

(** A sample of zero puts the running minimum back to zero, the value
    that stands for "nothing merged yet". *)
Lemma merge_min_reset a r : 0 <= a -> Min r = 0 -> merge_min a r = 0.
Proof.
  intros Ha Hr. destruct (Z.eq_dec a 0) as [-> | Hne].
  - by rewrite merge_min_zero.
  - rewrite merge_min_nonzero by exact Hne. lia.
Qed.

Lemma merged_max_greatest rs :
  rs <> [] -> nonneg_latencies rs ->
  greatest_of Max rs (fold_left merge_max rs 0).
Proof.
  intros Hne Hpos.
  destruct (merged_max_bounds rs 0) as (H0 & Hall & Hex). cbn zeta in *.
  split; [| exact Hall].
  destruct Hex as [E | Hex]; [| exact Hex].
  destruct rs as [| r rs]; [done |].
  exists r. split; [by left |].
  assert (Max r <= fold_left merge_max (r :: rs) 0) by (apply Hall; by left).
  assert (0 <= Max r) by (apply Hpos; by left).
  lia.
Qed.

Lemma merged_min_least rs :
  rs <> [] -> nonneg_latencies rs -> settled rs ->
  least_of Min rs (fold_left merge_min rs 0).
Proof.
  intros Hne Hpos [Hall | (rs' & r & -> & Hr)].
  - destruct rs as [| r rs]; [done |].
    cbn [fold_left]. rewrite merge_min_zero.
    destruct (merged_min_positive rs (Min r)) as (Hm & Hle & Hmin & Hex);
      [apply Hall; by left | intros r' Hin; apply Hall; by right |].
    cbn zeta in *. split.
    + destruct Hex as [E | (r' & Hin & Hr')].
      * exists r. split; [by left | congruence].
      * exists r'. split; [by right | exact Hr'].
    + intros r' [<- | Hin]; [exact Hle | by apply Hmin].
  - rewrite fold_left_app. cbn [fold_left].
    rewrite merge_min_reset; [| | exact Hr].
    + split.
      * exists r. split; [apply in_or_app; right; by left | exact Hr].
      * intros r' Hin. by apply Hpos.
    + apply merged_min_nonneg; [lia |].
      intros r' Hin. apply Hpos, in_or_app. by left.
Qed.

End Extremes.

(** ** Requests and iops of the report *)

(** A field counted per bucket and over all executors: each count is the
    sum modulo [2 ^ 64], the two bucket counts add up (in [uint64]) to the
    overall count, and nothing wraps when the sum fits 64 bits. *)
Lemma counted_by_bucket (f : executor_result -> Z) es :
  let count rs := fold_left (fun a r => Int.add_u64 a (f r)) rs 0 in
  let all := total_of f (results es) in
  let gets := total_of f (results (get_bucket es)) in
  let puts := total_of f (results (put_bucket es)) in
  count (results es) = Int.wrap_u64 all /\
  count (results (get_bucket es)) = Int.wrap_u64 gets /\
  count (results (put_bucket es)) = Int.wrap_u64 puts /\
  all = gets + puts /\
  Int.add_u64 (count (results (get_bucket es))) (count (results (put_bucket es)))
    = count (results es) /\
  ((forall x, In x es -> 0 <= f (measured x)) -> all < 2 ^ 64 ->
   count (results (get_bucket es)) + count (results (put_bucket es)) = all).
Proof.
  cbv zeta beta. rewrite !count_wraps.
  pose proof (total_of_buckets f es) as Hsplit.
  repeat split; try exact Hsplit.
  - unfold Int.add_u64. rewrite wrap_u64_add. by rewrite Hsplit.
  - intros Hpos Hfit.
    assert (Hsub : forall (P : executor -> Prop) `{!forall x, Decision (P x)} r,
              In r (results (filter P es)) -> 0 <= f r).
    { intros P HP r Hin. unfold results in Hin. apply in_map_iff in Hin.
      destruct Hin as (x & <- & Hx). apply Hpos.
      apply list_elem_of_In. apply list_elem_of_In in Hx.
      apply list_elem_of_filter in Hx. tauto. }
    pose proof (total_of_nonneg f (results (get_bucket es)) (Hsub _ _)).
    pose proof (total_of_nonneg f (results (put_bucket es)) (Hsub _ _)).
    rewrite !wrap_u64_small by lia. lia.
Qed.

(** C2. The requests of the two buckets add up to the overall requests, and
    these are the sums of [Total] over the bucket's executors and over all
    executors; every executor is in exactly one bucket.  The counters are
    [uint64]: the equalities are those of [uint64] arithmetic, and they hold
    without wrap-around when the sum of all [Total] fits 64 bits. *)
Theorem requests_partitioned es :
  Int.add_u64 (overall_get_requests (aggregate es))
              (overall_put_requests (aggregate es))
    = overall_requests (aggregate es) /\
  overall_requests (aggregate es) = Int.wrap_u64 (total_of Total (results es)) /\
  overall_get_requests (aggregate es)
    = Int.wrap_u64 (total_of Total (results (get_bucket es))) /\
  overall_put_requests (aggregate es)
    = Int.wrap_u64 (total_of Total (results (put_bucket es))) /\
  total_of Total (results es)
    = total_of Total (results (get_bucket es))
      + total_of Total (results (put_bucket es)) /\
  Permutation es (get_bucket es ++ put_bucket es) /\
  (forall x, In x (get_bucket es) -> In x (put_bucket es) -> False) /\
  ((forall x, In x es -> 0 <= Total (measured x)) ->
   total_of Total (results es) < 2 ^ 64 ->
   overall_get_requests (aggregate es) + overall_put_requests (aggregate es)
     = total_of Total (results es)).
Proof.
  rewrite aggregate_folded. cbn [report_averages folded overall_requests
    overall_get_requests overall_put_requests].
  destruct (counted_by_bucket Total es) as (Hall & Hget & Hput & Hsplit & Hadd & Hfit).
  repeat split; try assumption.
  - apply buckets_partition.
  - intros x Hg Hp. apply (buckets_disjoint es x); by apply list_elem_of_In.
Qed.

Lemma requests_partitioned_witness :
  overall_get_requests (aggregate get_and_put)
  + overall_put_requests (aggregate get_and_put)
  = total_of Total (results get_and_put).
Proof.
  apply (requests_partitioned get_and_put).
  - intros x Hin. each_member Hin; cbn; lia.
  - vm_compute. reflexivity.
Defined.

(** C7. Each bucket's iops is the sum of [Iops] over the bucket's
    executors, the overall iops is the sum over all executors, and so the
    sum of the two buckets' iops (sums of [uint64] values, in [uint64]
    arithmetic; without wrap-around when the overall sum fits 64 bits). *)
Theorem iops_summed es :
  overall_get_iops (aggregate es)
    = Int.wrap_u64 (total_of Iops (results (get_bucket es))) /\
  overall_put_iops (aggregate es)
    = Int.wrap_u64 (total_of Iops (results (put_bucket es))) /\
  overall_iops (aggregate es) = Int.wrap_u64 (total_of Iops (results es)) /\
  overall_iops (aggregate es)
    = Int.add_u64 (overall_get_iops (aggregate es))
                  (overall_put_iops (aggregate es)) /\
  ((forall x, In x es -> 0 <= Iops (measured x)) ->
   total_of Iops (results es) < 2 ^ 64 ->
   overall_iops (aggregate es) = total_of Iops (results es) /\
   overall_iops (aggregate es)
     = overall_get_iops (aggregate es) + overall_put_iops (aggregate es)).
Proof.
  rewrite aggregate_folded. cbn [report_averages folded overall_iops
    overall_get_iops overall_put_iops].
  destruct (counted_by_bucket Iops es) as (Hall & Hget & Hput & Hsplit & Hadd & Hfit).
  repeat split; try assumption; try (symmetry; assumption).
  - rewrite Hall. apply wrap_u64_small. split; [| assumption].
    apply total_of_nonneg. intros r Hin. unfold results in Hin.
    apply in_map_iff in Hin. destruct Hin as (x & <- & Hx). auto.
  - rewrite Hfit by assumption. rewrite Hall. apply wrap_u64_small.
    split; [| assumption].
    apply total_of_nonneg. intros r Hin. unfold results in Hin.
    apply in_map_iff in Hin. destruct Hin as (x & <- & Hx). auto.
Qed.


Lemma iops_summed_witness :
  overall_iops (aggregate get_and_put) = total_of Iops (results get_and_put) /\
  overall_iops (aggregate get_and_put)
  = overall_get_iops (aggregate get_and_put)
    + overall_put_iops (aggregate get_and_put).
Proof.
  apply (iops_summed get_and_put).
  - intros x Hin. each_member Hin; cbn; lia.
  - vm_compute. reflexivity.
Defined.


(** ** Extremes of the report *)

Lemma fold_min_max_of_aggregate es :
  overall_get_lat_min (aggregate es)
    = fold_left merge_min (results (get_bucket es)) 0 /\
  overall_get_lat_max (aggregate es)
    = fold_left merge_max (results (get_bucket es)) 0 /\
  overall_put_lat_min (aggregate es)
    = fold_left merge_min (results (put_bucket es)) 0 /\
  overall_put_lat_max (aggregate es)
    = fold_left merge_max (results (put_bucket es)) 0.
Proof. rewrite aggregate_folded. by cbn. Qed.

Lemma merges_all_fold rs :
  nonneg_latencies rs ->
  merges_all rs (fold_left merge_min rs 0) (fold_left merge_max rs 0).
Proof.
  intros Hpos. split.
  - by intros ->.
  - intros Hne. split; [by apply merged_max_greatest |].
    intros Hs. by apply merged_min_least.
Qed.

Lemma nonneg_latencies_bucket (P : executor -> Prop)
    `{!forall x, Decision (P x)} es :
  nonneg_latencies (results es) -> nonneg_latencies (results (filter P es)).
Proof.
  intros Hpos r Hin. apply Hpos. unfold results in *.
  apply in_map_iff in Hin. destruct Hin as (x & <- & Hx).
  apply in_map. apply list_elem_of_In. apply list_elem_of_In in Hx.
  apply list_elem_of_filter in Hx. tauto.
Qed.

(** C3 (amended). The merge never looks at [Total], so no Result is left
    out of it: when no latency is negative, a bucket's max is the greatest
    [Max] over all Results of the bucket and, when every [Min] of the
    bucket is positive or the bucket's last Result has a [Min] of zero, the
    bucket's min is the least [Min] over all Results of the bucket; a
    bucket without Results reports zero for both. *)
Theorem extremes_over_whole_bucket es :
  nonneg_latencies (results es) ->
  merges_all (results (get_bucket es))
    (overall_get_lat_min (aggregate es)) (overall_get_lat_max (aggregate es)) /\
  merges_all (results (put_bucket es))
    (overall_put_lat_min (aggregate es)) (overall_put_lat_max (aggregate es)).
Proof.
  intros Hpos.
  destruct (fold_min_max_of_aggregate es) as (-> & -> & -> & ->).
  split; apply merges_all_fold; by apply nonneg_latencies_bucket.
Qed.

Lemma extremes_over_whole_bucket_witness :
  greatest_of Max (results (get_bucket busy_then_idle))
    (overall_get_lat_max (aggregate busy_then_idle)) /\
  least_of Min (results (get_bucket busy_then_idle))
    (overall_get_lat_min (aggregate busy_then_idle)) /\
  overall_put_lat_min (aggregate busy_then_idle) = 0 /\
  overall_put_lat_max (aggregate busy_then_idle) = 0.
Proof.
  destruct (extremes_over_whole_bucket busy_then_idle) as [[_ Hget] [Hput _]].
  - intros r Hin. each_member Hin; cbn; lia.
  - destruct Hget as [Hmax Hmin].
    + intros Hnil. vm_compute in Hnil. discriminate Hnil.
    + split; [exact Hmax |]. split; [| apply Hput; reflexivity].
      apply Hmin. right.
      exists (results [GET_executor {| Total := 5; Iops := 1; Avg := 150000;
                                       Min := 100000; Max := 200000 |}]),
             zero_result.
      split; reflexivity.
Defined.

(** C3 as stated fails: with a busy executor followed by an idle one, the
    reported GET min is 0, which is not the least [Min] over the Results
    with [Total > 0] (that is 100000 ns). *)
Lemma extremes_keep_empty_results :
  overall_get_lat_min (aggregate busy_then_idle) = 0 /\
  ~ least_of Min
      (filter (fun r => 0 < Total r) (results (get_bucket busy_then_idle)))
      (overall_get_lat_min (aggregate busy_then_idle)).
Proof.
  assert (E : overall_get_lat_min (aggregate busy_then_idle) = 0)
    by (vm_compute; reflexivity).
  split; [exact E |]. rewrite E.
  intros [(r & Hin & Hr) _].
  apply list_elem_of_In, list_elem_of_filter in Hin.
  destruct Hin as [Htot Hin]. apply list_elem_of_In in Hin.
  each_member Hin; cbn in *; lia.
Qed.

(** C5 on the code: a busy executor, an idle one, a second busy one.  The
    idle Result puts the running minimum back to zero, the next Result
    overwrites it, and the reported GET min (200000 ns) is above the [Min]
    (100000 ns) of the first Result, which has [Total > 0]. *)
Lemma min_bound_lost_after_idle_result :
  overall_get_lat_min (aggregate idle_between_busy) = 200000 /\
  exists r, In r (results (get_bucket idle_between_busy)) /\
            0 < Total r /\
            Min r < overall_get_lat_min (aggregate idle_between_busy).
Proof.
  assert (E : overall_get_lat_min (aggregate idle_between_busy) = 200000)
    by (vm_compute; reflexivity).
  split; [exact E |]. rewrite E.
  eexists. split; [left; reflexivity |]. cbn. lia.
Qed.

(** The half of C5 that holds: every Result merged into a bucket, whatever
    its [Total], is below the bucket's max. *)
Lemma max_bounds_every_result es r :
  (In r (results (get_bucket es)) -> Max r <= overall_get_lat_max (aggregate es)) /\
  (In r (results (put_bucket es)) -> Max r <= overall_put_lat_max (aggregate es)).
Proof.
  destruct (fold_min_max_of_aggregate es) as (_ & -> & _ & ->).
  split; intros Hin.
  - by apply (merged_max_bounds (results (get_bucket es)) 0).
  - by apply (merged_max_bounds (results (put_bucket es)) 0).
Qed.


(** ** The calls of the monad *)

Lemma append_assoc (a b c : string) : (a +:+ b) +:+ c = a +:+ (b +:+ c).
Proof.
  induction a as [| ch a IH]; [reflexivity |].
  change (String ch ((a +:+ b) +:+ c) = String ch (a +:+ (b +:+ c))).
  by rewrite IH.
Qed.

Lemma append_nil_r (a : string) : a +:+ "" = a.
Proof.
  induction a as [| ch a IH]; [reflexivity |].
  change (String ch (a +:+ "") = String ch a). by rewrite IH.
Qed.

Lemma fold_append (ls : list string) : forall c,
  fold_left String.append ls c = c +:+ fold_left String.append ls "".
Proof.
  induction ls as [| l ls IH]; intros c; cbn.
  - by rewrite append_nil_r.
  - rewrite (IH (c +:+ l)), (IH ("" +:+ l)).
    change ("" +:+ l) with l. apply append_assoc.
Qed.

Lemma add_logs_nil w : add_logs [] w = w.
Proof. destruct w. unfold add_logs. cbn. by rewrite app_nil_r. Qed.

Lemma add_logs_add_logs l l' w : add_logs l' (add_logs l w) = add_logs (l ++ l') w.
Proof. unfold add_logs. cbn. by rewrite app_assoc. Qed.

Lemma for_range_Println entries : forall w,
  for_range entries log_Println w = Returned tt (add_logs entries w).
Proof.
  induction entries as [| x entries IH]; intros w; cbn.
  - unfold ret. by rewrite add_logs_nil.
  - unfold bind, log_Println, modify at 1. rewrite IH.
    f_equal. unfold add_logs, add_log. cbn. by rewrite <- app_assoc.
Qed.

Lemma for_range_Println_map {A} (g : A -> list log_arg) (l : list A) : forall w,
  for_range l (fun x => log_Println (g x)) w = Returned tt (add_logs (map g l) w).
Proof.
  induction l as [| x l IH]; intros w; cbn.
  - unfold ret. by rewrite add_logs_nil.
  - unfold bind, log_Println, modify at 1. rewrite IH.
    f_equal. unfold add_logs, add_log. cbn. by rewrite <- app_assoc.
Qed.

(** Writing lines to a file that holds [c] leaves [c] followed by the
    lines. *)
Lemma for_range_WriteString f (ls : list string) : forall w c,
  w_files w !! f = Some c ->
  for_range ls (WriteString f) w =
  Returned tt (set_files (insert f (c +:+ fold_left String.append ls "")) w).
Proof.
  induction ls as [| l ls IH]; intros w c Hc; cbn.
  - unfold ret. f_equal. destruct w as [fl vs fs lg]. unfold set_files. cbn in *.
    f_equal. rewrite append_nil_r. symmetry. by apply insert_id.
  - unfold bind, WriteString, modify at 1.
    rewrite (IH _ (c +:+ l)).
    + f_equal. unfold set_files. cbn. f_equal.
      rewrite insert_insert_eq. f_equal.
      change (fold_left String.append (l :: ls) "")
        with (fold_left String.append ls ("" +:+ l)).
      change ("" +:+ l) with l.
      rewrite (fold_append ls l). by rewrite append_assoc.
    + cbn. rewrite Hc. cbn. by rewrite lookup_insert_eq.
Qed.

(** ** What [report] does to the world *)

Lemma errors_of_aggregate es : errors (aggregate es) = omap failure es.
Proof. rewrite aggregate_folded. reflexivity. Qed.

Lemma no_errors_iff es :
  (0 <? Z.of_nat (length (omap failure es))) = existsb reports_error es.
Proof.
  induction es as [| [wl h p m [msg |]] es IH]; [reflexivity | |].
  - change (omap failure (_ :: es)) with (msg :: omap failure es).
    cbn [length existsb]. unfold reports_error at 1, Report. cbn [snd failure orb].
    destruct (Z.ltb_spec 0 (Z.of_nat (S (length (omap failure es)))));
      [reflexivity | lia].
  - change (omap failure (_ :: es)) with (omap failure es).
    cbn [existsb]. unfold reports_error at 1, Report. cbn [snd failure orb].
    exact IH.
Qed.

Lemma report_returns e w :
  create_ok e (results_file (w_flags w)) = true ->
  report e w = Returned (report_status (executors (w_vars w))) (reported w).
Proof.
  intros Hok. unfold report, bind at 1, get at 1.
  unfold bind at 1. rewrite for_range_Println.
  unfold bind at 1, get at 1. cbn [add_logs w_flags].
  unfold bind at 1, os_Create. rewrite Hok.
  unfold bind at 1, modify at 1, ret at 1.
  unfold bind at 1.
  rewrite (for_range_WriteString _ _ _ "")
    by (cbn [set_files w_files]; apply lookup_insert_eq).
  change ("" +:+ ?t) with t.
  fold (report_text (aggregate (executors (w_vars w)))).
  rewrite errors_of_aggregate, no_errors_iff. unfold report_status.
  pose proof (no_errors_iff (executors (w_vars w))) as Hlen.
  destruct (existsb reports_error (executors (w_vars w))).
  - unfold bind. rewrite for_range_Println_map. unfold ret. f_equal.
    unfold reported, set_files, add_logs. cbn [w_flags w_vars w_files w_log].
    rewrite insert_insert_eq, errors_of_aggregate, app_assoc. reflexivity.
  - unfold ret. f_equal.
    unfold reported, set_files, add_logs. cbn [w_flags w_vars w_files w_log].
    rewrite insert_insert_eq, errors_of_aggregate.
    destruct (omap failure (executors (w_vars w))) as [| msg l].
    + cbn [map]. by rewrite app_nil_r.
    + cbn [length] in Hlen.
      destruct (Z.ltb_spec 0 (Z.of_nat (S (length l)))); [discriminate | lia].
Qed.

Lemma report_fatal e w :
  create_ok e (results_file (w_flags w)) = false ->
  report e w =
  Exited 1
    (add_logs
       (report_log (Time_Sub (end_time (w_vars w)) (start_time (w_vars w)))
                   (aggregate (executors (w_vars w)))
        ++ [[LErr (results_file (w_flags w))]]) w).
Proof.
  intros Hok. unfold report, bind at 1, get at 1.
  unfold bind at 1. rewrite for_range_Println.
  unfold bind at 1, get at 1. cbn [add_logs w_flags].
  unfold bind at 1, os_Create. rewrite Hok. unfold ret at 1.
  unfold log_Fatal, bind, log_Println, modify, os_Exit. f_equal.
  unfold add_log, add_logs. cbn [w_flags w_vars w_files w_log].
  by rewrite app_assoc.
Qed.

(** ** Errors are advisory *)





Lemma report_text_figures v : report_text (figures v) = report_text v.
Proof. reflexivity. Qed.



(** ** The report file is a function of the Results *)


Lemma report_files e w :
  w_files (world_of (report e w)) =
  if create_ok e (results_file (w_flags w))
  then <[results_file (w_flags w) := report_text (aggregate (executors (w_vars w)))]>
         (w_files w)
  else w_files w.
Proof.
  destruct (create_ok e (results_file (w_flags w))) eqn:Hok.
  - by rewrite report_returns.
  - by rewrite report_fatal.
Qed.

Lemma report_keeps_globals e w :
  w_flags (world_of (report e w)) = w_flags w /\
  w_vars (world_of (report e w)) = w_vars w.
Proof.
  destruct (create_ok e (results_file (w_flags w))) eqn:Hok.
  - by rewrite report_returns.
  - by rewrite report_fatal.
Qed.



(** ** Latencies are printed in whole microseconds *)

Lemma wrap_i64_range z : Int.is_i64 (Int.wrap_i64 z).
Proof.
  unfold Int.is_i64, Int.wrap_i64.
  pose proof (Z.mod_pos_bound (z + 2 ^ 63) (2 ^ 64) ltac:(lia)). lia.
Qed.

Lemma wrap_i64_small z : Int.is_i64 z -> Int.wrap_i64 z = z.
Proof.
  unfold Int.is_i64, Int.wrap_i64. intros H.
  rewrite Z.mod_small by lia. lia.
Qed.

Lemma to_int64_range f : Int.is_i64 (F64.to_int64 f).
Proof.
  unfold F64.to_int64, F64.int64_indefinite, Int.is_i64.
  destruct (F64.trunc f) as [z |]; [| lia].
  destruct (Z.leb_spec (- 2 ^ 63) z), (Z.ltb_spec z (2 ^ 63)); cbn; lia.
Qed.

Lemma usec_is_quot d : Int.is_i64 d -> usec d = Z.quot d 1000.
Proof.
  intros H. unfold usec, Int.quot_i64. apply wrap_i64_small.
  unfold Int.is_i64 in *.
  destruct (Z.le_gt_cases 0 d).
  - rewrite Z.quot_div_nonneg by lia.
    pose proof (Z.div_le_upper_bound d 1000 d ltac:(lia) ltac:(lia)).
    pose proof (Z.div_pos d 1000 ltac:(lia) ltac:(lia)). lia.
  - replace d with (- (- d)) by lia. rewrite Z.quot_opp_l by lia.
    rewrite Z.quot_div_nonneg by lia.
    pose proof (Z.div_le_upper_bound (- d) 1000 (- d) ltac:(lia) ltac:(lia)).
    pose proof (Z.div_pos (- d) 1000 ltac:(lia) ltac:(lia)). lia.
Qed.

Lemma quot_toward_zero d : toward_zero d (Z.quot d 1000).
Proof.
  unfold toward_zero.
  destruct (Z.le_gt_cases 0 d).
  - rewrite Z.quot_div_nonneg by lia.
    pose proof (Z.div_mod d 1000 ltac:(lia)).
    pose proof (Z.mod_pos_bound d 1000 ltac:(lia)).
    pose proof (Z.div_pos d 1000 ltac:(lia) ltac:(lia)).
    split; [lia | by apply Z.mul_nonneg_nonneg].
  - assert (E : Z.quot d 1000 = - ((- d) / 1000)).
    { replace d with (- (- d)) at 1 by lia. rewrite Z.quot_opp_l by lia.
      by rewrite Z.quot_div_nonneg by lia. }
    rewrite E.
    pose proof (Z.div_mod (- d) 1000 ltac:(lia)).
    pose proof (Z.mod_pos_bound (- d) 1000 ltac:(lia)).
    pose proof (Z.div_pos (- d) 1000 ltac:(lia) ltac:(lia)).
    split; [lia | by apply Z.mul_nonpos_nonpos; lia].
Qed.

Lemma merged_min_member rs : forall a,
  fold_left merge_min rs a = a \/
  exists r, In r rs /\ Min r = fold_left merge_min rs a.
Proof.
  induction rs as [| r rs IH]; intros a; cbn [fold_left]; [by left |].
  destruct (IH (merge_min a r)) as [E | (r' & Hin & Hr')].
  - rewrite E. unfold merge_min.
    destruct (a =? 0); destruct (_ >? _);
      (by left) || (right; exists r; split; [by left | reflexivity]).
  - right. exists r'. split; [by right | exact Hr'].
Qed.

Lemma weighted_sum_range rs :
  Int.is_i64 (fold_left (fun a r => Int.add_i64 a (weighted r)) rs 0).
Proof.
  induction rs as [| r rs IH] using rev_ind.
  - cbn. unfold Int.is_i64. lia.
  - rewrite fold_left_app. cbn [fold_left]. apply wrap_i64_range.
Qed.

Lemma average_range a n : Int.is_i64 a -> Int.is_i64 (average a n).
Proof.
  intros Ha. unfold average. destruct (n =? 0); [exact Ha |].
  apply to_int64_range.
Qed.

Lemma int64_latencies_bucket (P : executor -> Prop)
    `{!forall x, Decision (P x)} es :
  int64_latencies es -> int64_latencies (filter P es).
Proof.
  intros Hes x Hin. apply Hes. apply list_elem_of_In.
  apply list_elem_of_In, list_elem_of_filter in Hin. tauto.
Qed.

Lemma merged_extremes_range es :
  int64_latencies es ->
  Int.is_i64 (fold_left merge_min (results es) 0) /\
  Int.is_i64 (fold_left merge_max (results es) 0).
Proof.
  intros H.
  assert (Hr : forall r, In r (results es) ->
                 Int.is_i64 (Min r) /\ Int.is_i64 (Max r)).
  { intros r Hin. apply in_map_iff in Hin. destruct Hin as (x & <- & Hx). auto. }
  assert (H0 : Int.is_i64 0) by (unfold Int.is_i64; lia).
  split.
  - destruct (merged_min_member (results es) 0) as [-> | (r & Hin & <-)];
      [exact H0 | by apply Hr].
  - destruct (merged_max_bounds (results es) 0) as (_ & _ & [E | (r & Hin & E)]);
      cbn zeta in E.
    + by rewrite E.
    + rewrite <- E. by apply Hr.
Qed.

Lemma printed_line lines i key d :
  Int.is_i64 d ->
  lines !! i = Some (key +:+ pretty (usec d) +:+ "usec" +:+ LF) ->
  printed_in_usec lines (i, key, d).
Proof.
  intros Hd Hline. unfold printed_in_usec.
  rewrite usec_is_quot in Hline by exact Hd. split.
  - exists (Z.quot d 1000). split; [apply quot_toward_zero | exact Hline].
  - intros Hsmall. rewrite Hline.
    assert (E : Z.quot d 1000 = 0) by (apply Z.quot_small_iff; lia).
    rewrite E. reflexivity.
Qed.

(** C10. Every latency of the report file is printed as its nanoseconds
    divided by 1000 and rounded toward zero, followed by [usec]: a merged
    latency below one microsecond is printed as [0usec]. *)
Theorem latencies_printed_in_usec es :
  int64_latencies es ->
  Forall (printed_in_usec (report_lines (aggregate es)))
         (latency_fields (aggregate es)).
Proof.
  intros H.
  destruct (merged_extremes_range (get_bucket es)) as [Hgmin Hgmax];
    [by apply int64_latencies_bucket |].
  destruct (merged_extremes_range (put_bucket es)) as [Hpmin Hpmax];
    [by apply int64_latencies_bucket |].
  pose proof (weighted_sum_range (results (get_bucket es))) as Hgavg.
  pose proof (weighted_sum_range (results (put_bucket es))) as Hpavg.
  rewrite aggregate_folded. unfold latency_fields.
  cbn [report_averages folded overall_get_lat_min overall_get_lat_max
       overall_get_avg_lat overall_put_lat_min overall_put_lat_max
       overall_put_avg_lat overall_get_requests overall_put_requests].
  repeat apply Forall_cons_2; try apply Forall_nil_2;
    apply printed_line; try reflexivity; try assumption;
    by apply average_range.
Qed.


(** ** Workload ids *)

Lemma wrap_i32_small z : Int.is_i32 z -> Int.wrap_i32 z = z.
Proof.
  unfold Int.is_i32, Int.wrap_i32. intros H.
  rewrite Z.mod_small by lia. lia.
Qed.

Lemma wrap_i32_range z : Int.is_i32 (Int.wrap_i32 z).
Proof.
  unfold Int.is_i32, Int.wrap_i32.
  pose proof (Z.mod_pos_bound (z + 2 ^ 31) (2 ^ 32) ltac:(lia)). lia.
Qed.

Lemma wrap_i32_add a b : Int.wrap_i32 (Int.wrap_i32 a + b) = Int.wrap_i32 (a + b).
Proof.
  unfold Int.wrap_i32. f_equal.
  replace ((a + 2 ^ 31) mod 2 ^ 32 - 2 ^ 31 + b + 2 ^ 31)
    with ((a + 2 ^ 31) mod 2 ^ 32 + b) by lia.
  rewrite Zplus_mod_idemp_l. f_equal. lia.
Qed.

Lemma get_workload_id_returns w :
  get_workload_id w =
  Returned (wl_id (w_vars w))
    (set_vars (fun v => with_wl_id (Int.add_i32 (wl_id v) 1) v) w).
Proof. reflexivity. Qed.

(** The [k]-th of [n] calls (from 0) returns the counter's start value
    plus [k], wrapped to 32 bits. *)
Lemma calls_values n : forall w,
  Int.is_i32 (wl_id (w_vars w)) ->
  value_of (calls n w)
  = Some (map (fun k => Int.wrap_i32 (wl_id (w_vars w) + Z.of_nat k)) (seq 0 n)).
Proof.
  induction n as [| n IH]; intros w Hw; [reflexivity |].
  cbn [calls]. unfold bind at 1. rewrite get_workload_id_returns.
  unfold bind at 1.
  set (w1 := set_vars _ w).
  specialize (IH w1 (wrap_i32_range _)).
  destruct (calls n w1) as [ids w2 | |]; try discriminate.
  cbn in IH. injection IH as ->. cbn [ret value_of seq map].
  rewrite Z.add_0_r, wrap_i32_small by exact Hw.
  do 2 f_equal. rewrite <- seq_shift, map_map.
  apply map_ext. intros k. subst w1. cbn [set_vars w_vars with_wl_id wl_id].
  unfold Int.add_i32. rewrite wrap_i32_add. f_equal. lia.
Qed.

Lemma add_executors_ids cfg l : forall w,
  Int.is_i32 (wl_id (w_vars w)) ->
  exists w',
    for_range l (add_executor cfg) w = Returned tt w' /\
    ids_of (executors (w_vars w'))
    = ids_of (executors (w_vars w))
      ++ map (fun k => Int.wrap_i32 (wl_id (w_vars w) + Z.of_nat k))
             (seq 0 (length l)).
Proof.
  induction l as [| [Name wl] l IH]; intros w Hw.
  - exists w. cbn. by rewrite app_nil_r.
  - cbn [for_range]. unfold bind at 1.
    unfold add_executor at 1, bind, log_Println, modify at 1.
    rewrite get_workload_id_returns. unfold modify at 1.
    match goal with |- context [for_range l _ ?w1] =>
      destruct (IH w1) as (w' & Hrun & Hids) end.
    { cbn [set_vars w_vars with_executors with_wl_id wl_id add_log].
      apply wrap_i32_range. }
    exists w'. split; [exact Hrun |].
    rewrite Hids. cbn [set_vars w_vars with_executors with_wl_id executors
                        wl_id add_log].
    unfold ids_of. rewrite map_app, <- app_assoc. f_equal.
    cbn [map Workload Id length seq app].
    f_equal.
    + rewrite Z.add_0_r. symmetry. by apply wrap_i32_small.
    + rewrite <- seq_shift, map_map. apply map_ext. intros k.
      unfold Int.add_i32. rewrite wrap_i32_add. f_equal. lia.
Qed.

Lemma generate_executors_ids w :
  Int.is_i32 (wl_id (w_vars w)) ->
  exists w',
    generate_executors w = Returned tt w' /\
    ids_of (executors (w_vars w'))
    = ids_of (executors (w_vars w))
      ++ map (fun k => Int.wrap_i32 (wl_id (w_vars w) + Z.of_nat k))
             (seq 0 (length (Workloads (config (w_vars w))))).
Proof.
  intros Hw. unfold generate_executors, bind, get.
  by apply add_executors_ids.
Qed.

Lemma ids_below_2_31 n :
  Z.of_nat n <= 2 ^ 31 ->
  map (fun k => Int.wrap_i32 (0 + Z.of_nat k)) (seq 0 n) = seqZ 0 (Z.of_nat n).
Proof.
  intros Hn. unfold seqZ. rewrite Nat2Z.id.
  apply map_ext_in. intros k Hk. apply in_seq in Hk.
  rewrite Z.add_0_l, Z.add_0_r. apply wrap_i32_small.
  unfold Int.is_i32. lia.
Qed.

Lemma seqZ_sorted m n : StronglySorted Z.lt (seqZ m n).
Proof.
  unfold seqZ. generalize (Z.to_nat n) as k. generalize 0%nat as a.
  intros a k. revert a.
  induction k as [| k IH]; intros a; cbn; constructor.
  - apply IH.
  - apply Forall_forall. intros y Hy.
    apply list_elem_of_In, in_map_iff in Hy. destruct Hy as (i & <- & Hi).
    apply in_seq in Hi. lia.
Qed.

(** C8 (amended). The counter is a 32-bit signed integer that starts at 0:
    for every [n] up to [2 ^ 31], [n] calls of [get_workload_id] one after
    the other return 0, 1, ..., [n - 1]; and [generate_executors], run at
    the start of the program on a configuration of at most [2 ^ 31]
    workloads, gives its executors the ids 0, 1, ... in the order it
    creates them.  These ids are strictly increasing, hence distinct. *)
Theorem workload_ids_count_up n w :
  wl_id (w_vars w) = 0 ->
  executors (w_vars w) = [] ->
  Z.of_nat n <= 2 ^ 31 ->
  Z.of_nat (length (Workloads (config (w_vars w)))) <= 2 ^ 31 ->
  value_of (calls n w) = Some (seqZ 0 (Z.of_nat n)) /\
  StronglySorted Z.lt (seqZ 0 (Z.of_nat n)) /\
  NoDup (seqZ 0 (Z.of_nat n)) /\
  exists w',
    generate_executors w = Returned tt w' /\
    ids_of (executors (w_vars w'))
      = seqZ 0 (Z.of_nat (length (Workloads (config (w_vars w))))) /\
    StronglySorted Z.lt (ids_of (executors (w_vars w'))) /\
    NoDup (ids_of (executors (w_vars w'))).
Proof.
  intros H0 Hnil Hn Hlen.
  assert (Hr : Int.is_i32 (wl_id (w_vars w)))
    by (rewrite H0; unfold Int.is_i32; lia).
  split; [| split; [apply seqZ_sorted | split; [apply NoDup_seqZ |]]].
  - rewrite calls_values by exact Hr. rewrite H0. f_equal.
    by apply ids_below_2_31.
  - destruct (generate_executors_ids w Hr) as (w' & Hrun & Hids).
    exists w'. split; [exact Hrun |].
    assert (E : ids_of (executors (w_vars w'))
                = seqZ 0 (Z.of_nat (length (Workloads (config (w_vars w)))))).
    { rewrite Hids, Hnil, H0. cbn [ids_of map app]. by apply ids_below_2_31. }
    rewrite E. split; [reflexivity |].
    split; [apply seqZ_sorted | apply NoDup_seqZ].
Qed.

Lemma workload_ids_count_up_witness :
  let w := set_vars (with_config sample_config) (initial default_flags ∅) in
  value_of (calls 3 w) = Some (seqZ 0 (Z.of_nat 3)) /\
  StronglySorted Z.lt (seqZ 0 (Z.of_nat 3)) /\
  NoDup (seqZ 0 (Z.of_nat 3)) /\
  exists w',
    generate_executors w = Returned tt w' /\
    ids_of (executors (w_vars w'))
      = seqZ 0 (Z.of_nat (length (Workloads (config (w_vars w))))) /\
    StronglySorted Z.lt (ids_of (executors (w_vars w'))) /\
    NoDup (ids_of (executors (w_vars w'))).
Proof.
  apply (workload_ids_count_up 3
           (set_vars (with_config sample_config) (initial default_flags ∅))).
  - reflexivity.
  - reflexivity.
  - vm_compute. discriminate.
  - vm_compute. discriminate.
Defined.

Lemma sorted_lookup (l : list Z) : forall i j a b,
  StronglySorted Z.lt l -> (i < j)%nat ->
  l !! i = Some a -> l !! j = Some b -> a < b.
Proof.
  induction l as [| x l IH]; intros i j a b Hs Hij Ha Hb; [discriminate |].
  apply StronglySorted_inv in Hs. destruct Hs as [Hs Hx].
  destruct j as [| j]; [lia |]. cbn in Hb.
  destruct i as [| i]; cbn in Ha.
  - injection Ha as <-. rewrite Forall_forall in Hx. apply Hx.
    by apply list_elem_of_lookup_2 with j.
  - apply (IH i j); [assumption | lia | assumption | assumption].
Qed.

(** C8 as stated fails past [2 ^ 31] calls: of [2 ^ 31 + 1] calls from the
    initial counter, call number [2 ^ 31] returns [2 ^ 31 - 1] and the next
    one returns [- 2 ^ 31], so the values returned are not increasing. *)
Lemma workload_ids_wrap_around :
  exists ids,
    value_of (calls (Z.to_nat (2 ^ 31 + 1)) (initial default_flags ∅)) = Some ids /\
    ids !! Z.to_nat (2 ^ 31 - 1) = Some (2 ^ 31 - 1) /\
    ids !! Z.to_nat (2 ^ 31) = Some (- 2 ^ 31) /\
    ~ StronglySorted Z.lt ids.
Proof.
  eexists. split.
  - apply calls_values. change (wl_id (w_vars (initial default_flags ∅))) with 0.
    unfold Int.is_i32. lia.
  - change (wl_id (w_vars (initial default_flags ∅))) with 0.
    assert (Hlast : forall k v,
              0 <= k < 2 ^ 31 + 1 -> Int.wrap_i32 (0 + k) = v ->
              map (fun k => Int.wrap_i32 (0 + Z.of_nat k))
                  (seq 0 (Z.to_nat (2 ^ 31 + 1))) !! Z.to_nat k = Some v).
    { intros k v Hk <-.
      rewrite list_lookup_fmap, lookup_seq_lt by (apply Z2Nat.inj_lt; lia).
      cbn [fmap option_fmap option_map].
      by rewrite Nat.add_0_l, Z2Nat.id by lia. }
    assert (H1 := Hlast (2 ^ 31 - 1) (2 ^ 31 - 1) ltac:(lia) eq_refl).
    assert (H2 := Hlast (2 ^ 31) (- 2 ^ 31) ltac:(lia) eq_refl).
    split; [exact H1 |]. split; [exact H2 |].
    intros Hs.
    assert (Hlt : (Z.to_nat (2 ^ 31 - 1) < Z.to_nat (2 ^ 31))%nat)
      by (apply Z2Nat.inj_lt; lia).
    pose proof (sorted_lookup _ _ _ _ _ Hs Hlt H1 H2). lia.
Qed.

(** ** The exit status *)

Lemma main_from_report e w w1 :
  before_report e w = Returned tt w1 ->
  main e w
  = with_defers (deferred_calls e) (err_code <- report e ;; exit err_code) w1.
Proof.
  unfold main, before_report, bind.
  destruct (parse_cmd_line_args w) as [[] w2 | |]; try discriminate.
  destruct (configure_log_to_file e w2) as [[] w3 | |]; try discriminate.
  intros Hrun. unfold with_defers. by rewrite Hrun.
Qed.

Lemma write_mem_profile_returns e w :
  (mem_profile (w_flags w) = true -> create_ok e "mem_profile" = true) ->
  exists w', write_mem_profile e w = Returned tt w' /\ w_flags w' = w_flags w.
Proof.
  intros Hok. unfold write_mem_profile, bind at 1, get.
  destruct (mem_profile (w_flags w)); [| by exists w].
  unfold bind, log_Println, modify, os_Create. rewrite Hok by reflexivity.
  unfold bind, modify, ret, WriteString, modify. eexists. split; reflexivity.
Qed.

(** After [report] and [exit], the deferred calls end the process with
    status 1 when [exit] panicked, and let [main] return otherwise. *)
Lemma unwind_status e w p :
  (mem_profile (w_flags w) = true -> create_ok e "mem_profile" = true) ->
  exit_status (unwind (deferred_calls e) p w)
  = match p with Some _ => 1 | None => 0 end.
Proof.
  intros Hok. destruct (write_mem_profile_returns e w Hok) as (w' & Hw & _).
  unfold deferred_calls. cbn [unwind]. unfold plain at 1, bind at 1.
  rewrite Hw. unfold ret at 1.
  unfold plain, stop_cpu_profile, close_log_file, bind, ret.
  destruct p as [v |]; reflexivity.
Qed.

(** C1 (amended). On a run that reaches [report], with a results file (and
    the heap profile, when asked for) that can be created: if some
    executor's [Report] returns an error, [report] returns 2, [exit]
    panics, and the deferred [handle_exit] ends the process with status 1;
    if none does, [report] returns 0 and the process ends with status 0. *)
Theorem exit_status_of_main e w w1 :
  before_report e w = Returned tt w1 ->
  create_ok e (results_file (w_flags w1)) = true ->
  (mem_profile (w_flags w1) = true -> create_ok e "mem_profile" = true) ->
  value_of (report e w1)
    = Some (if existsb reports_error (executors (w_vars w1)) then 2 else 0) /\
  exit_status (main e w)
    = (if existsb reports_error (executors (w_vars w1)) then 1 else 0).
Proof.
  intros Hrun Hres Hmem.
  rewrite (main_from_report e w w1 Hrun).
  unfold with_defers, bind. rewrite (report_returns e w1 Hres).
  split; [reflexivity |].
  unfold report_status, exit.
  destruct (existsb reports_error (executors (w_vars w1))); cbn [Z.eqb negb].
  - unfold panic. by rewrite unwind_status.
  - unfold log_Println, modify. by rewrite unwind_status.
Qed.

Lemma exit_status_of_main_witness :
  let e := sample_env true in
  let w := initial default_flags ∅ in
  let w1 := world_of (before_report e w) in
  value_of (report e w1)
    = Some (if existsb reports_error (executors (w_vars w1)) then 2 else 0) /\
  exit_status (main e w)
    = (if existsb reports_error (executors (w_vars w1)) then 1 else 0).
Proof.
  apply (exit_status_of_main (sample_env true) (initial default_flags ∅)
           (world_of (before_report (sample_env true) (initial default_flags ∅)))).
  - vm_compute. reflexivity.
  - reflexivity.
  - intros _. reflexivity.
Defined.

(** C1 as stated fails: on the sample run the PUT executor's [Report]
    returns an error, and the process ends with status 1, not 2. *)
Lemma exit_status_on_error_is_1 :
  existsb reports_error
    (executors (w_vars (world_of (before_report (sample_env true)
                                    (initial default_flags ∅))))) = true /\
  exit_status (main (sample_env true) (initial default_flags ∅)) = 1 /\
  exit_status (main (sample_env true) (initial default_flags ∅)) <> 2.
Proof.
  split; [vm_compute; reflexivity |].
  assert (E : exit_status (main (sample_env true) (initial default_flags ∅)) = 1)
    by (vm_compute; reflexivity).
  split; [exact E | rewrite E; discriminate].
Qed.

Lemma latencies_printed_in_usec_witness :
  Forall (printed_in_usec (report_lines (aggregate sub_microsecond)))
         (latency_fields (aggregate sub_microsecond)).
Proof.
  apply (latencies_printed_in_usec sub_microsecond).
  intros x Hin. each_member Hin. cbn. unfold Int.is_i64. lia.
Defined.

(** On the sample above the GET min of 999 ns is printed as [0usec] and the
    GET max of 1999 ns as [1usec]. *)
Lemma sub_microsecond_lines :
  report_lines (aggregate sub_microsecond) !! 6%nat = Some ("overall_lat_min=0usec" +:+ LF) /\
  report_lines (aggregate sub_microsecond) !! 7%nat = Some ("overall_lat_max=1usec" +:+ LF).
Proof. split; vm_compute; reflexivity. Qed.

(** ** float64 on integers below [2 ^ 53] *)




























(** ** Division *)














(** ** The weighted average *)









(** ** The order of the executors *)

(** A left fold does not depend on the order of the list when two steps
    can be exchanged. *)
Lemma fold_left_exchange {A B} (f : A -> B -> A) :
  (forall a x y, f (f a x) y = f (f a y) x) ->
  forall l l', Permutation l l' -> forall a, fold_left f l a = fold_left f l' a.
Proof.
  intros Hf l l' Hp.
  induction Hp as [| x l l' _ IH | x y l | l l' l'' _ IH1 _ IH2]; intros a; cbn.
  - reflexivity.
  - apply IH.
  - by rewrite Hf.
  - by rewrite IH1, IH2.
Qed.

Lemma wrap_i64_add a b : Int.wrap_i64 (Int.wrap_i64 a + b) = Int.wrap_i64 (a + b).
Proof.
  unfold Int.wrap_i64. f_equal.
  replace ((a + 2 ^ 63) mod 2 ^ 64 - 2 ^ 63 + b + 2 ^ 63)
    with ((a + 2 ^ 63) mod 2 ^ 64 + b) by lia.
  rewrite Zplus_mod_idemp_l. f_equal. lia.
Qed.

Lemma count_exchange (f : executor_result -> Z) rs rs' :
  Permutation rs rs' ->
  fold_left (fun a r => Int.add_u64 a (f r)) rs 0
  = fold_left (fun a r => Int.add_u64 a (f r)) rs' 0.
Proof.
  intros Hp. apply fold_left_exchange; [| exact Hp].
  intros a x y. unfold Int.add_u64, Int.wrap_u64.
  rewrite !Zplus_mod_idemp_l. f_equal. lia.
Qed.

Lemma weigh_exchange rs rs' :
  Permutation rs rs' ->
  fold_left (fun a r => Int.add_i64 a (weighted r)) rs 0
  = fold_left (fun a r => Int.add_i64 a (weighted r)) rs' 0.
Proof.
  intros Hp. apply fold_left_exchange; [| exact Hp].
  intros a x y. unfold Int.add_i64. rewrite !wrap_i64_add. f_equal. lia.
Qed.

Lemma max_exchange rs rs' :
  Permutation rs rs' ->
  fold_left merge_max rs 0 = fold_left merge_max rs' 0.
Proof.
  intros Hp. apply fold_left_exchange; [| exact Hp].
  intros a x y. rewrite !merge_max_is_max. lia.
Qed.

(** On positive minima the zero start value is replaced by the first
    sample and never comes back: two merges can be exchanged from any
    start value that is zero or positive. *)
Lemma min_exchange rs rs' :
  Permutation rs rs' ->
  (forall r, In r rs -> 0 < Min r) ->
  forall a, 0 <= a -> fold_left merge_min rs a = fold_left merge_min rs' a.
Proof.
  intros Hp.
  induction Hp as [| x l l' Hp IH | x y l | l l' l'' Hp1 IH1 Hp2 IH2];
    intros Hpos a Ha; cbn [fold_left].
  - reflexivity.
  - assert (0 < Min x) by (apply Hpos; by left).
    apply IH; [intros r Hr; apply Hpos; by right |].
    destruct (Z.eq_dec a 0) as [-> | Hne].
    + rewrite merge_min_zero. lia.
    + rewrite merge_min_nonzero by exact Hne. lia.
  - assert (0 < Min x) by (apply Hpos; right; by left).
    assert (0 < Min y) by (apply Hpos; by left).
    f_equal.
    destruct (Z.eq_dec a 0) as [-> | Hne].
    + rewrite !merge_min_zero, !merge_min_nonzero by lia. lia.
    + rewrite !(merge_min_nonzero a) by exact Hne.
      rewrite !merge_min_nonzero by lia. lia.
  - rewrite IH1 by assumption. apply IH2; [| exact Ha].
    intros r Hr. apply Hpos. apply (Permutation_in r (Permutation_sym Hp1) Hr).
Qed.

Lemma bucket_exchange (P : executor -> Prop) `{!forall x, Decision (P x)} es es' :
  Permutation es es' ->
  Permutation (results (filter P es)) (results (filter P es')).
Proof.
  intros Hp. unfold results. apply Permutation_map.
  by apply filter_Permutation.
Qed.

Lemma positive_minima_bucket (P : executor -> Prop)
    `{!forall x, Decision (P x)} es :
  (forall x, In x es -> 0 < Min (measured x)) ->
  forall r, In r (results (filter P es)) -> 0 < Min r.
Proof.
  intros Hpos r Hin. unfold results in Hin. apply in_map_iff in Hin.
  destruct Hin as (x & <- & Hx). apply Hpos.
  apply list_elem_of_In. apply list_elem_of_In, list_elem_of_filter in Hx. tauto.
Qed.

(** Every figure but the two minima is the same for two lists of
    executors that differ in their order only. *)
Lemma figures_exchange es es' :
  Permutation es es' ->
  forall lo lo',
    lo = overall_get_lat_min (aggregate es') ->
    lo' = overall_put_lat_min (aggregate es') ->
    {| overall_requests := overall_requests (aggregate es);
       overall_get_requests := overall_get_requests (aggregate es);
       overall_put_requests := overall_put_requests (aggregate es);
       overall_get_lat_max := overall_get_lat_max (aggregate es);
       overall_get_lat_min := lo;
       overall_put_lat_max := overall_put_lat_max (aggregate es);
       overall_put_lat_min := lo';
       overall_iops := overall_iops (aggregate es);
       overall_get_iops := overall_get_iops (aggregate es);
       overall_put_iops := overall_put_iops (aggregate es);
       overall_get_avg_lat := overall_get_avg_lat (aggregate es);
       overall_put_avg_lat := overall_put_avg_lat (aggregate es);
       errors := [] |} = figures (aggregate es').
Proof.
  intros Hp lo lo' -> ->.
  pose proof (bucket_exchange (fun x => Type_ (Workload x) = "GET") es es' Hp) as Hg.
  pose proof (bucket_exchange (fun x => Type_ (Workload x) <> "GET") es es' Hp) as Hu.
  assert (Ha : Permutation (results es) (results es'))
    by (by apply Permutation_map).
  fold (get_bucket es) (get_bucket es') in Hg.
  fold (put_bucket es) (put_bucket es') in Hu.
  rewrite !aggregate_folded.
  unfold figures, report_averages, folded.
  cbn [overall_requests overall_get_requests overall_put_requests
       overall_get_lat_max overall_get_lat_min overall_put_lat_max
       overall_put_lat_min overall_iops overall_get_iops overall_put_iops
       overall_get_avg_lat overall_put_avg_lat errors].
  rewrite (count_exchange Total _ _ Ha), (count_exchange Total _ _ Hg),
    (count_exchange Total _ _ Hu), (count_exchange Iops _ _ Ha),
    (count_exchange Iops _ _ Hg), (count_exchange Iops _ _ Hu),
    (max_exchange _ _ Hg), (max_exchange _ _ Hu),
    (weigh_exchange _ _ Hg), (weigh_exchange _ _ Hu).
  reflexivity.
Qed.

(** X1. The report does not depend on the order of the executors, which
    is the order in which the runtime visits [config.Workloads]: for two
    lists of executors that are permutations of each other the request and
    iops counters, the two maxima and the two averages agree, and the same
    errors are collected; when every Result has a positive [Min] the minima
    agree too, so all twelve figures and the text of the results file are
    the same. *)
Theorem report_order_independent es es' :
  Permutation es es' ->
  overall_requests (aggregate es) = overall_requests (aggregate es') /\
  overall_get_requests (aggregate es) = overall_get_requests (aggregate es') /\
  overall_put_requests (aggregate es) = overall_put_requests (aggregate es') /\
  overall_iops (aggregate es) = overall_iops (aggregate es') /\
  overall_get_iops (aggregate es) = overall_get_iops (aggregate es') /\
  overall_put_iops (aggregate es) = overall_put_iops (aggregate es') /\
  overall_get_lat_max (aggregate es) = overall_get_lat_max (aggregate es') /\
  overall_put_lat_max (aggregate es) = overall_put_lat_max (aggregate es') /\
  overall_get_avg_lat (aggregate es) = overall_get_avg_lat (aggregate es') /\
  overall_put_avg_lat (aggregate es) = overall_put_avg_lat (aggregate es') /\
  Permutation (errors (aggregate es)) (errors (aggregate es')) /\
  ((forall x, In x es -> 0 < Min (measured x)) ->
   figures (aggregate es) = figures (aggregate es') /\
   report_text (aggregate es) = report_text (aggregate es')).
Proof.
  intros Hp.
  pose proof (figures_exchange es es' Hp _ _ eq_refl eq_refl) as Hall.
  unfold figures in Hall. injection Hall as H1 H2 H3 H4 H5 H6 H7 H8 H9 H10.
  repeat (split; [assumption |]).
  split.
  - rewrite !errors_of_aggregate. by apply omap_Permutation.
  - intros Hpos.
    pose proof (bucket_exchange (fun x => Type_ (Workload x) = "GET") es es' Hp) as Hg.
    pose proof (bucket_exchange (fun x => Type_ (Workload x) <> "GET") es es' Hp) as Hu.
    assert (Hfigs : figures (aggregate es) = figures (aggregate es')).
    { rewrite <- (figures_exchange es es' Hp
                    (overall_get_lat_min (aggregate es))
                    (overall_put_lat_min (aggregate es))); [reflexivity | |].
      - destruct (fold_min_max_of_aggregate es) as (-> & _).
        destruct (fold_min_max_of_aggregate es') as (-> & _).
        apply min_exchange; [exact Hg | | lia].
        by apply positive_minima_bucket.
      - destruct (fold_min_max_of_aggregate es) as (_ & _ & -> & _).
        destruct (fold_min_max_of_aggregate es') as (_ & _ & -> & _).
        apply min_exchange; [exact Hu | | lia].
        by apply positive_minima_bucket. }
    split; [exact Hfigs |].
    by rewrite <- (report_text_figures (aggregate es)), Hfigs, report_text_figures.
Qed.

Lemma report_order_independent_witness :
  figures (aggregate get_and_put) = figures (aggregate (rev get_and_put)) /\
  report_text (aggregate get_and_put) = report_text (aggregate (rev get_and_put)).
Proof.
  apply (report_order_independent get_and_put (rev get_and_put)).
  - apply Permutation_rev.
  - intros x Hin. each_member Hin; cbn; lia.
Defined.

(** ** The minimum is below the maximum *)

Lemma merged_min_below_max rs : forall lo hi,
  lo <= hi -> (forall r, In r rs -> Min r <= Max r) ->
  fold_left merge_min rs lo <= fold_left merge_max rs hi.
Proof.
  induction rs as [| r rs IH]; intros lo hi Hle Hrs; cbn [fold_left]; [exact Hle |].
  assert (Min r <= Max r) by (apply Hrs; by left).
  apply IH; [| intros r' Hr'; apply Hrs; by right].
  rewrite merge_max_is_max.
  destruct (Z.eq_dec lo 0) as [-> | Hne].
  - rewrite merge_min_zero. lia.
  - rewrite merge_min_nonzero by exact Hne. lia.
Qed.

Lemma usec_monotone a b : Int.is_i64 a -> Int.is_i64 b -> a <= b -> usec a <= usec b.
Proof.
  intros Ha Hb Hle. rewrite !usec_is_quot by assumption.
  apply Z.quot_le_mono; lia.
Qed.

Lemma ordered_bucket (P : executor -> Prop) `{!forall x, Decision (P x)} es :
  (forall x, In x es -> Min (measured x) <= Max (measured x)) ->
  forall r, In r (results (filter P es)) -> Min r <= Max r.
Proof.
  intros Hes r Hin. unfold results in Hin. apply in_map_iff in Hin.
  destruct Hin as (x & <- & Hx). apply Hes.
  apply list_elem_of_In. apply list_elem_of_In, list_elem_of_filter in Hx. tauto.
Qed.

(** X2. When every Result has its [Min] below its [Max], each bucket's
    reported min is below its reported max: in nanoseconds and, for [int64]
    latencies, in the microseconds printed in the results file. *)
Theorem min_never_above_max es :
  (forall x, In x es -> Min (measured x) <= Max (measured x)) ->
  overall_get_lat_min (aggregate es) <= overall_get_lat_max (aggregate es) /\
  overall_put_lat_min (aggregate es) <= overall_put_lat_max (aggregate es) /\
  (int64_latencies es ->
   usec (overall_get_lat_min (aggregate es))
     <= usec (overall_get_lat_max (aggregate es)) /\
   usec (overall_put_lat_min (aggregate es))
     <= usec (overall_put_lat_max (aggregate es))).
Proof.
  intros Hes.
  destruct (fold_min_max_of_aggregate es) as (-> & -> & -> & ->).
  assert (Hg : fold_left merge_min (results (get_bucket es)) 0
               <= fold_left merge_max (results (get_bucket es)) 0).
  { apply merged_min_below_max; [lia |]. by apply ordered_bucket. }
  assert (Hp : fold_left merge_min (results (put_bucket es)) 0
               <= fold_left merge_max (results (put_bucket es)) 0).
  { apply merged_min_below_max; [lia |]. by apply ordered_bucket. }
  split; [exact Hg |]. split; [exact Hp |].
  intros H64.
  destruct (merged_extremes_range (get_bucket es)) as [Hgmin Hgmax];
    [by apply int64_latencies_bucket |].
  destruct (merged_extremes_range (put_bucket es)) as [Hpmin Hpmax];
    [by apply int64_latencies_bucket |].
  split; by apply usec_monotone.
Qed.

Lemma min_never_above_max_witness :
  overall_get_lat_min (aggregate idle_between_busy)
    <= overall_get_lat_max (aggregate idle_between_busy) /\
  overall_put_lat_min (aggregate idle_between_busy)
    <= overall_put_lat_max (aggregate idle_between_busy) /\
  (int64_latencies idle_between_busy ->
   usec (overall_get_lat_min (aggregate idle_between_busy))
     <= usec (overall_get_lat_max (aggregate idle_between_busy)) /\
   usec (overall_put_lat_min (aggregate idle_between_busy))
     <= usec (overall_put_lat_max (aggregate idle_between_busy))).
Proof.
  apply (min_never_above_max idle_between_busy).
  intros x Hin. each_member Hin; cbn; lia.
Defined.

(** ** The average is between the averages *)





(** ** The two buckets *)

Lemma get_bucket_twice es : get_bucket (get_bucket es) = get_bucket es.
Proof.
  unfold get_bucket. induction es as [| x es IH]; [reflexivity |].
  destruct (decide (Type_ (Workload x) = "GET")) as [E | E].
  - rewrite (filter_cons_True _ x es) by exact E.
    rewrite filter_cons_True by exact E. by rewrite IH.
  - by rewrite filter_cons_False by exact E.
Qed.

Lemma put_bucket_twice es : put_bucket (put_bucket es) = put_bucket es.
Proof.
  unfold put_bucket. induction es as [| x es IH]; [reflexivity |].
  destruct (decide (Type_ (Workload x) <> "GET")) as [E | E].
  - rewrite (filter_cons_True _ x es) by exact E.
    rewrite filter_cons_True by exact E. by rewrite IH.
  - by rewrite filter_cons_False by exact E.
Qed.

Lemma put_of_get_bucket es : put_bucket (get_bucket es) = [].
Proof.
  unfold put_bucket, get_bucket. induction es as [| x es IH]; [reflexivity |].
  destruct (decide (Type_ (Workload x) = "GET")) as [E | E].
  - rewrite (filter_cons_True _ x es) by exact E.
    by rewrite filter_cons_False by (intros N; exact (N E)).
  - by rewrite filter_cons_False by exact E.
Qed.

Lemma get_of_put_bucket es : get_bucket (put_bucket es) = [].
Proof.
  unfold put_bucket, get_bucket. induction es as [| x es IH]; [reflexivity |].
  destruct (decide (Type_ (Workload x) <> "GET")) as [E | E].
  - rewrite (filter_cons_True _ x es) by exact E.
    by rewrite filter_cons_False by exact E.
  - by rewrite filter_cons_False by exact E.
Qed.

(** X16. The two buckets do not interfere: the five GET figures are those
    of a report of the GET executors alone, the five PUT figures those of
    the other executors alone, and a report without PUT (GET) executors has
    all five PUT (GET) figures at zero. *)
Theorem buckets_do_not_interfere es :
  (overall_get_requests (aggregate es) = overall_get_requests (aggregate (get_bucket es)) /\
   overall_get_iops (aggregate es) = overall_get_iops (aggregate (get_bucket es)) /\
   overall_get_lat_min (aggregate es) = overall_get_lat_min (aggregate (get_bucket es)) /\
   overall_get_lat_max (aggregate es) = overall_get_lat_max (aggregate (get_bucket es)) /\
   overall_get_avg_lat (aggregate es) = overall_get_avg_lat (aggregate (get_bucket es))) /\
  (overall_put_requests (aggregate es) = overall_put_requests (aggregate (put_bucket es)) /\
   overall_put_iops (aggregate es) = overall_put_iops (aggregate (put_bucket es)) /\
   overall_put_lat_min (aggregate es) = overall_put_lat_min (aggregate (put_bucket es)) /\
   overall_put_lat_max (aggregate es) = overall_put_lat_max (aggregate (put_bucket es)) /\
   overall_put_avg_lat (aggregate es) = overall_put_avg_lat (aggregate (put_bucket es))) /\
  (overall_put_requests (aggregate (get_bucket es)) = 0 /\
   overall_put_iops (aggregate (get_bucket es)) = 0 /\
   overall_put_lat_min (aggregate (get_bucket es)) = 0 /\
   overall_put_lat_max (aggregate (get_bucket es)) = 0 /\
   overall_put_avg_lat (aggregate (get_bucket es)) = 0) /\
  (overall_get_requests (aggregate (put_bucket es)) = 0 /\
   overall_get_iops (aggregate (put_bucket es)) = 0 /\
   overall_get_lat_min (aggregate (put_bucket es)) = 0 /\
   overall_get_lat_max (aggregate (put_bucket es)) = 0 /\
   overall_get_avg_lat (aggregate (put_bucket es)) = 0).
Proof.
  rewrite !aggregate_folded. unfold report_averages, folded.
  cbn [overall_get_requests overall_put_requests overall_get_lat_max
       overall_get_lat_min overall_put_lat_max overall_put_lat_min
       overall_get_iops overall_put_iops overall_get_avg_lat overall_put_avg_lat].
  rewrite get_bucket_twice, put_bucket_twice, put_of_get_bucket, get_of_put_bucket.
  by repeat split.
Qed.

(** ** An executor that completed no request *)

Lemma count_zero (f : executor_result -> Z) rs r :
  f r = 0 ->
  fold_left (fun a r => Int.add_u64 a (f r)) (rs ++ [r]) 0
  = fold_left (fun a r => Int.add_u64 a (f r)) rs 0.
Proof.
  intros Hr. rewrite !count_wraps, total_of_snoc, Hr. by rewrite Z.add_0_r.
Qed.

Lemma weighted_zero : weighted zero_result = 0.
Proof. vm_compute. reflexivity. Qed.

Lemma weigh_zero rs :
  fold_left (fun a r => Int.add_i64 a (weighted r)) (rs ++ [zero_result]) 0
  = fold_left (fun a r => Int.add_i64 a (weighted r)) rs 0.
Proof.
  rewrite fold_left_app. cbn [fold_left]. rewrite weighted_zero.
  unfold Int.add_i64. rewrite Z.add_0_r.
  apply wrap_i64_small, weighted_sum_range.
Qed.

Lemma max_zero rs :
  fold_left merge_max (rs ++ [zero_result]) 0 = fold_left merge_max rs 0.
Proof.
  rewrite fold_left_app. cbn [fold_left]. rewrite merge_max_is_max.
  destruct (merged_max_bounds rs 0) as (H0 & _). cbn zeta in H0.
  cbn [Max zero_result]. lia.
Qed.

Lemma idle_last es x :
  measured x = zero_result ->
  forall lo lo',
    lo = overall_get_lat_min (aggregate es) ->
    lo' = overall_put_lat_min (aggregate es) ->
    {| overall_requests := overall_requests (aggregate (es ++ [x]));
       overall_get_requests := overall_get_requests (aggregate (es ++ [x]));
       overall_put_requests := overall_put_requests (aggregate (es ++ [x]));
       overall_get_lat_max := overall_get_lat_max (aggregate (es ++ [x]));
       overall_get_lat_min := lo;
       overall_put_lat_max := overall_put_lat_max (aggregate (es ++ [x]));
       overall_put_lat_min := lo';
       overall_iops := overall_iops (aggregate (es ++ [x]));
       overall_get_iops := overall_get_iops (aggregate (es ++ [x]));
       overall_put_iops := overall_put_iops (aggregate (es ++ [x]));
       overall_get_avg_lat := overall_get_avg_lat (aggregate (es ++ [x]));
       overall_put_avg_lat := overall_put_avg_lat (aggregate (es ++ [x]));
       errors := [] |} = figures (aggregate es).
Proof.
  intros Hx lo lo' -> ->. rewrite !aggregate_folded.
  unfold figures, report_averages, folded.
  cbn [overall_requests overall_get_requests overall_put_requests
       overall_get_lat_max overall_get_lat_min overall_put_lat_max
       overall_put_lat_min overall_iops overall_get_iops overall_put_iops
       overall_get_avg_lat overall_put_avg_lat errors].
  rewrite get_bucket_snoc, put_bucket_snoc, results_snoc, Hx.
  rewrite !(count_zero _ (results es)) by reflexivity.
  destruct (String.eqb (Type_ (Workload x)) "GET");
    rewrite results_snoc, Hx, !count_zero, weigh_zero, max_zero by reflexivity;
    reflexivity.
Qed.

(** X17. An executor that completed no request (a Result of zeros)
    changes no figure of the report, wherever it stands among the
    executors, except possibly the min of its bucket. *)
Theorem idle_executor_changes_only_min es1 x es2 :
  measured x = zero_result ->
  overall_requests (aggregate (es1 ++ x :: es2))
    = overall_requests (aggregate (es1 ++ es2)) /\
  overall_get_requests (aggregate (es1 ++ x :: es2))
    = overall_get_requests (aggregate (es1 ++ es2)) /\
  overall_put_requests (aggregate (es1 ++ x :: es2))
    = overall_put_requests (aggregate (es1 ++ es2)) /\
  overall_iops (aggregate (es1 ++ x :: es2))
    = overall_iops (aggregate (es1 ++ es2)) /\
  overall_get_iops (aggregate (es1 ++ x :: es2))
    = overall_get_iops (aggregate (es1 ++ es2)) /\
  overall_put_iops (aggregate (es1 ++ x :: es2))
    = overall_put_iops (aggregate (es1 ++ es2)) /\
  overall_get_lat_max (aggregate (es1 ++ x :: es2))
    = overall_get_lat_max (aggregate (es1 ++ es2)) /\
  overall_put_lat_max (aggregate (es1 ++ x :: es2))
    = overall_put_lat_max (aggregate (es1 ++ es2)) /\
  overall_get_avg_lat (aggregate (es1 ++ x :: es2))
    = overall_get_avg_lat (aggregate (es1 ++ es2)) /\
  overall_put_avg_lat (aggregate (es1 ++ x :: es2))
    = overall_put_avg_lat (aggregate (es1 ++ es2)).
Proof.
  intros Hx.
  assert (Hp : Permutation (es1 ++ x :: es2) ((es1 ++ es2) ++ [x])).
  { rewrite <- Permutation_middle. apply Permutation_cons_append. }
  pose proof (figures_exchange _ _ Hp _ _ eq_refl eq_refl) as H1.
  pose proof (idle_last (es1 ++ es2) x Hx _ _ eq_refl eq_refl) as H2.
  unfold figures in H1, H2.
  repeat split.
  all: match goal with |- ?f (aggregate _) = _ =>
         pose proof (f_equal f H1) as A; pose proof (f_equal f H2) as B
       end.
  all: exact (eq_trans A B).
Qed.

Lemma idle_executor_changes_only_min_witness :
  let busy := [ GET_executor {| Total := 5; Iops := 1; Avg := 150000;
                                Min := 100000; Max := 200000 |};
                GET_executor {| Total := 3; Iops := 1; Avg := 250000;
                                Min := 200000; Max := 300000 |} ] in
  overall_get_requests (aggregate idle_between_busy)
    = overall_get_requests (aggregate busy) /\
  overall_get_lat_max (aggregate idle_between_busy)
    = overall_get_lat_max (aggregate busy) /\
  overall_get_avg_lat (aggregate idle_between_busy)
    = overall_get_avg_lat (aggregate busy).
Proof.
  intros busy.
  destruct (idle_executor_changes_only_min
              [GET_executor {| Total := 5; Iops := 1; Avg := 150000;
                               Min := 100000; Max := 200000 |}]
              (GET_executor zero_result)
              [GET_executor {| Total := 3; Iops := 1; Avg := 250000;
                               Min := 200000; Max := 300000 |}])
    as (_ & Hreq & _ & _ & _ & _ & Hmax & _ & Havg & _).
  - reflexivity.
  - split; [exact Hreq |]. split; [exact Hmax | exact Havg].
Defined.

(** ** What [report] leaves alone *)

Lemma reported_log w :
  w_log (reported w)
  = w_log w
    ++ report_log (Time_Sub (end_time (w_vars w)) (start_time (w_vars w)))
                  (aggregate (executors (w_vars w)))
    ++ map (fun err => [LErr err]) (errors (aggregate (executors (w_vars w)))).
Proof. reflexivity. Qed.

(** X4. [report] changes no flag and no package-level variable.  It leaves
    alone every file other than the results file (and the log file, which
    receives what is logged), and the results file too when that cannot be
    created.  To the log it appends the fourteen entries of the figures,
    followed by one entry per executor error, in the executors' order, or
    by the entry of [log.Fatal]. *)
Theorem report_frame e w :
  w_flags (world_of (report e w)) = w_flags w /\
  w_vars (world_of (report e w)) = w_vars w /\
  (forall path,
     path <> results_file (w_flags w) -> log_file (w_vars w) <> Some path ->
     w_files (world_of (report e w)) !! path = w_files w !! path) /\
  (create_ok e (results_file (w_flags w)) = false ->
   w_files (world_of (report e w)) !! results_file (w_flags w)
     = w_files w !! results_file (w_flags w)) /\
  w_log (world_of (report e w))
  = w_log w
    ++ report_log (Time_Sub (end_time (w_vars w)) (start_time (w_vars w)))
                  (aggregate (executors (w_vars w)))
    ++ (if create_ok e (results_file (w_flags w))
        then map (fun err => [LErr err]) (omap failure (executors (w_vars w)))
        else [[LErr (results_file (w_flags w))]]).
Proof.
  destruct (report_keeps_globals e w) as [Hf Hv].
  split; [exact Hf |]. split; [exact Hv |].
  rewrite (report_files e w).
  destruct (create_ok e (results_file (w_flags w))) eqn:Hok.
  - split; [intros path Hp _; by rewrite lookup_insert_ne |].
    split; [discriminate |].
    rewrite report_returns by exact Hok. cbn [world_of].
    by rewrite reported_log, errors_of_aggregate.
  - split; [reflexivity |]. split; [reflexivity |].
    by rewrite report_fatal by exact Hok.
Qed.

(** ** The exit path of [main] *)

Lemma main_unfold e w :
  main e w =
  match parse_cmd_line_args w with
  | Returned _ w1 =>
      match configure_log_to_file e w1 with
      | Returned _ w2 =>
          with_defers (deferred_calls e)
            (run_load e ;; err_code <- report e ;; exit err_code) w2
      | Exited c w' => Exited c w'
      | Panicked v w' => Panicked v w'
      end
  | Exited c w' => Exited c w'
  | Panicked v w' => Panicked v w'
  end.
Proof. reflexivity. Qed.

(** X5. When the results file cannot be created, [log.Fatal] ends the
    process with status 1 right after the figures have been logged,
    whatever the executors reported: the deferred calls of [main] do not
    run, so no heap profile is written even with [-m]. *)
Theorem results_file_failure_is_fatal e w w1 :
  before_report e w = Returned tt w1 ->
  create_ok e (results_file (w_flags w1)) = false ->
  main e w
  = Exited 1
      (add_logs
         (report_log (Time_Sub (end_time (w_vars w1)) (start_time (w_vars w1)))
                     (aggregate (executors (w_vars w1)))
          ++ [[LErr (results_file (w_flags w1))]]) w1) /\
  exit_status (main e w) = 1 /\
  w_files (world_of (main e w)) !! "mem_profile" = w_files w1 !! "mem_profile" /\
  ~ In [LStr "MEM Profile enabled"]
       (drop (length (w_log w1)) (w_log (world_of (main e w)))).
Proof.
  intros Hrun Hok.
  assert (E : main e w
    = Exited 1
      (add_logs
         (report_log (Time_Sub (end_time (w_vars w1)) (start_time (w_vars w1)))
                     (aggregate (executors (w_vars w1)))
          ++ [[LErr (results_file (w_flags w1))]]) w1)).
  { rewrite (main_from_report e w w1 Hrun). unfold with_defers, bind.
    by rewrite (report_fatal e w1 Hok). }
  rewrite E. split; [reflexivity |]. split; [reflexivity |].
  split; [reflexivity |].
  cbn [world_of add_logs w_log]. rewrite drop_app_length.
  intros Hin. apply in_app_or in Hin. unfold report_log in Hin.
  cbn [In] in Hin. decompose [or] Hin; try discriminate; assumption.
Qed.

Lemma results_file_failure_is_fatal_witness :
  let e := sample_env_with (fun path => negb (String.eqb path "example.results"))
             (LoadConfig (sample_env false)) in
  let w := initial {| conf_file := "example.toml"; results_file := "example.results";
                      showVersion := false; cpu_profile := false;
                      mem_profile := true; enable_log := false |} ∅ in
  exit_status (main e w) = 1 /\
  w_files (world_of (main e w)) !! "mem_profile" = None.
Proof.
  intros e w.
  destruct (results_file_failure_is_fatal e w (world_of (before_report e w)))
    as (_ & H1 & H2 & _).
  - vm_compute. reflexivity.
  - reflexivity.
  - split; [exact H1 | rewrite H2; reflexivity].
Defined.

(** *** Only two statuses *)

Lemma fatal_only_bind {A B} (m : M A) (k : A -> M B) :
  fatal_only m -> (forall a, fatal_only (k a)) -> fatal_only (bind m k).
Proof.
  intros Hm Hk w c w' H. unfold bind in H.
  destruct (m w) as [a w1 | c1 w1 |] eqn:E; try discriminate.
  - by apply (Hk a w1 c w').
  - injection H as <- <-. by apply (Hm w c1 w1).
Qed.

Lemma fatal_only_ret {A} (a : A) : fatal_only (ret a).
Proof. intros w c w' H. discriminate. Qed.

Lemma fatal_only_get {A} (f : world -> A) : fatal_only (get f).
Proof. intros w c w' H. discriminate. Qed.

Lemma fatal_only_modify f : fatal_only (modify f).
Proof. intros w c w' H. discriminate. Qed.

Lemma fatal_only_panic {A} v : fatal_only (@panic A v).
Proof. intros w c w' H. discriminate. Qed.

Lemma fatal_only_Println entry : fatal_only (log_Println entry).
Proof. apply fatal_only_modify. Qed.

Lemma fatal_only_Fatal {A} entry : fatal_only (@log_Fatal A entry).
Proof.
  intros w c w' H. unfold log_Fatal, bind, log_Println, modify, os_Exit in H.
  by injection H as <- _.
Qed.

Lemma fatal_only_Create e path : fatal_only (os_Create e path).
Proof.
  unfold os_Create. destruct (create_ok e path).
  - apply fatal_only_bind; [apply fatal_only_modify | intros; apply fatal_only_ret].
  - apply fatal_only_ret.
Qed.

Lemma fatal_only_WriteString path s : fatal_only (WriteString path s).
Proof. apply fatal_only_modify. Qed.

Lemma fatal_only_for_range {A} (l : list A) body :
  (forall x, fatal_only (body x)) -> fatal_only (for_range l body).
Proof.
  intros Hb. induction l as [| x l IH]; cbn [for_range].
  - apply fatal_only_ret.
  - apply fatal_only_bind; [apply Hb | intros _; exact IH].
Qed.

Create HintDb fatal discriminated.
#[local] Hint Resolve fatal_only_ret fatal_only_get fatal_only_modify
  fatal_only_panic fatal_only_Println fatal_only_Fatal fatal_only_Create
  fatal_only_WriteString : fatal.

Ltac fatal_steps :=
  repeat first
    [ solve [eauto with fatal]
    | apply fatal_only_bind; [| intros ?]
    | apply fatal_only_for_range; intros ?
    | match goal with
      | |- fatal_only (if ?b then _ else _) => destruct b
      | |- fatal_only (match ?x with _ => _ end) => destruct x
      end ].

Lemma fatal_only_get_workload_id : fatal_only get_workload_id.
Proof. unfold get_workload_id. fatal_steps. Qed.

Lemma fatal_only_start_cpu_profile e : fatal_only (start_cpu_profile e).
Proof. unfold start_cpu_profile. fatal_steps. Qed.

Lemma fatal_only_write_mem_profile e : fatal_only (write_mem_profile e).
Proof. unfold write_mem_profile. fatal_steps. Qed.

Lemma fatal_only_load_test_Config e : fatal_only (load_test_Config e).
Proof.
  unfold load_test_Config. apply fatal_only_bind; [eauto with fatal |].
  intros path. destruct (LoadConfig e path) as [cfg [msg |]]; fatal_steps.
Qed.

Lemma fatal_only_generate_executors : fatal_only generate_executors.
Proof.
  unfold generate_executors. apply fatal_only_bind; [eauto with fatal |].
  intros cfg. apply fatal_only_for_range. intros [Name wl].
  unfold add_executor. fatal_steps.
Qed.

Lemma fatal_only_run_load e : fatal_only (run_load e).
Proof.
  unfold run_load.
  apply fatal_only_bind; [apply fatal_only_start_cpu_profile | intros _].
  apply fatal_only_bind; [apply fatal_only_load_test_Config | intros _].
  apply fatal_only_bind; [apply fatal_only_generate_executors | intros _].
  unfold start_executors, wait_for_completion. fatal_steps.
Qed.



Lemma fatal_only_configure e : fatal_only (configure_log_to_file e).
Proof. unfold configure_log_to_file. fatal_steps. Qed.

Lemma write_mem_profile_no_panic e : no_panic (write_mem_profile e).
Proof.
  intros w v w'. unfold write_mem_profile, bind, get.
  destruct (mem_profile (w_flags w)); [| discriminate].
  unfold log_Println, modify, os_Create.
  destruct (create_ok e "mem_profile"); discriminate.
Qed.

(** The deferred calls of [main]: when the goroutine is panicking they end
    the process with status 1; otherwise they return, or end it with
    status 1 when the heap profile cannot be created. *)
Lemma unwind_cases e p w :
  match unwind (deferred_calls e) p w with
  | Returned _ _ => p = None
  | Exited c _ => c = 1
  | Panicked _ _ => False
  end.
Proof.
  unfold deferred_calls. cbn [unwind]. unfold plain at 1, bind at 1.
  pose proof (fatal_only_write_mem_profile e w) as Hf.
  pose proof (write_mem_profile_no_panic e w) as Hn.
  destruct (write_mem_profile e w) as [[] w1 | c w1 | v w1].
  - unfold ret at 1. unfold plain, stop_cpu_profile, close_log_file, bind, ret.
    destruct p as [v |]; reflexivity.
  - by apply (Hf c w1).
  - by destruct (Hn v w1).
Qed.


(** *** Status 0 *)

Lemma parse_cmd_line_args_returns w :
  showVersion (w_flags w) = false -> parse_cmd_line_args w = Returned tt w.
Proof. intros H. unfold parse_cmd_line_args, bind, get. by rewrite H. Qed.

Lemma no_errors_none es :
  existsb reports_error es = false -> forall x, In x es -> failure x = None.
Proof.
  intros H x Hin. destruct (failure x) eqn:F; [| reflexivity].
  assert (existsb reports_error es = true); [| congruence].
  apply existsb_exists. exists x. split; [exact Hin |].
  unfold reports_error, Report. cbn. by rewrite F.
Qed.

Lemma write_mem_profile_log e w w' :
  write_mem_profile e w = Returned tt w' ->
  exists rest, w_log w' = w_log w ++ rest.
Proof.
  unfold write_mem_profile, bind, get.
  destruct (mem_profile (w_flags w)).
  - unfold log_Println, modify, os_Create.
    destruct (create_ok e "mem_profile"); [| discriminate].
    unfold bind, modify, ret, WriteString, modify. intros [= <-].
    cbn. by eexists.
  - unfold ret. intros [= <-]. exists []. by rewrite app_nil_r.
Qed.

Lemma unwind_returns e w :
  unwind (deferred_calls e) None w
  = match write_mem_profile e w with
    | Returned _ w' => Returned tt w'
    | Exited c w' => Exited c w'
    | Panicked v w' => Exited 1 (add_log [LErr v] w')
    end.
Proof.
  unfold deferred_calls. cbn [unwind]. unfold plain at 1, bind at 1.
  destruct (write_mem_profile e w) as [[] w1 | c w1 | v w1]; reflexivity.
Qed.

Lemma unwind_panicking e v w :
  unwind (deferred_calls e) (Some v) w
  = match write_mem_profile e w with
    | Returned _ w' => Exited 1 (add_log [LErr v] w')
    | Exited c w' => Exited c w'
    | Panicked v' w' => Exited 1 (add_log [LErr v'] w')
    end.
Proof.
  unfold deferred_calls. cbn [unwind]. unfold plain at 1, bind at 1.
  destruct (write_mem_profile e w) as [[] w1 | c w1 | v1 w1]; reflexivity.
Qed.

(** X7. Status 0 without the version flag means a clean run: every step
    before [report] returned, [report] wrote the results file and returned
    0, no executor reported an error, and the success message was logged
    after the report. *)
Theorem zero_status_means_clean_run e w :
  showVersion (w_flags w) = false ->
  exit_status (main e w) = 0 ->
  exists w1,
    before_report e w = Returned tt w1 /\
    report e w1 = Returned 0 (reported w1) /\
    (forall x, In x (executors (w_vars w1)) -> failure x = None) /\
    exists rest,
      w_log (world_of (main e w))
      = w_log (reported w1) ++ [LStr "Test completed successfully"] :: rest.
Proof.
  intros Hv H0. rewrite main_unfold in *.
  unfold before_report, bind.
  rewrite parse_cmd_line_args_returns in * by exact Hv.
  pose proof (fatal_only_configure e w) as Hconf.
  destruct (configure_log_to_file e w) as [[] w2 | c w2 | v w2];
    [| specialize (Hconf c w2 eq_refl); cbn in H0; lia | discriminate].
  clear Hconf. unfold with_defers, bind in H0 |- *.
  pose proof (fatal_only_run_load e w2) as Hrun.
  destruct (run_load e w2) as [[] w1 | c w1 | v w1].
  - exists w1. split; [reflexivity |].
    destruct (create_ok e (results_file (w_flags w1))) eqn:Hok.
    + rewrite report_returns in * by exact Hok. unfold report_status, exit in *.
      destruct (existsb reports_error (executors (w_vars w1))) eqn:Herr;
        cbn [Z.eqb negb] in *.
      * exfalso. unfold panic in H0.
        pose proof (unwind_cases e (Some "Test failed with error") (reported w1)) as Hu.
        destruct (unwind _ _ _); cbn in H0; [discriminate | lia | done].
      * split; [reflexivity |]. split; [by apply no_errors_none |].
        unfold log_Println, modify in *. rewrite unwind_returns in *.
        destruct (write_mem_profile e _) as [[] w4 | c w4 | v w4] eqn:Hmem;
          cbn [world_of]; cbn in H0; try discriminate.
        -- destruct (write_mem_profile_log _ _ _ Hmem) as (rest & ->).
           exists rest. cbn [add_log w_log]. by rewrite <- app_assoc.
        -- pose proof (fatal_only_write_mem_profile e _ _ _ Hmem). lia.
    + exfalso. rewrite report_fatal in H0 by exact Hok. cbn in H0. lia.
  - exfalso. specialize (Hrun c w1 eq_refl). cbn in H0. lia.
  - exfalso. pose proof (unwind_cases e (Some v) w1) as Hu.
    destruct (unwind _ _ _); cbn in H0; [discriminate | lia | done].
Qed.

Lemma zero_status_means_clean_run_witness :
  exists w1,
    before_report (sample_env false) (initial default_flags ∅) = Returned tt w1 /\
    report (sample_env false) w1 = Returned 0 (reported w1) /\
    (forall x, In x (executors (w_vars w1)) -> failure x = None) /\
    exists rest,
      w_log (world_of (main (sample_env false) (initial default_flags ∅)))
      = w_log (reported w1) ++ [LStr "Test completed successfully"] :: rest.
Proof.
  apply (zero_status_means_clean_run (sample_env false) (initial default_flags ∅)).
  - reflexivity.
  - vm_compute. reflexivity.
Defined.

(** *** The version flag *)

(** X8. With [-v], [main] logs the version and exits with status 0 at
    once: nothing else is logged, no file is created and no variable is
    assigned, whatever the other flags and the environment. *)
Theorem version_flag_exits_at_once e w :
  showVersion (w_flags w) = true ->
  main e w = Exited 0 (add_log [LStr "Running Version %s"; LStr AppVersion] w).
Proof.
  intros Hv. rewrite main_unfold.
  unfold parse_cmd_line_args, bind, get. by rewrite Hv.
Qed.

Lemma version_flag_exits_at_once_witness :
  let fl := {| conf_file := "missing.toml"; results_file := "example.results";
               showVersion := true; cpu_profile := true;
               mem_profile := true; enable_log := true |} in
  main (sample_env_with (fun _ => false) (fun _ => (sample_config, Some "no such file")))
       (initial fl ∅)
  = Exited 0 (add_log [LStr "Running Version %s"; LStr AppVersion] (initial fl ∅)).
Proof.
  intros fl.
  apply (version_flag_exits_at_once
           (sample_env_with (fun _ => false)
              (fun _ => (sample_config, Some "no such file")))
           (initial fl ∅)).
  reflexivity.
Defined.

(** *** A configuration that cannot be loaded *)

Lemma configure_keeps_flags e w w' :
  configure_log_to_file e w = Returned tt w' -> w_flags w' = w_flags w.
Proof.
  unfold configure_log_to_file, bind, get.
  destruct (enable_log (w_flags w)); [| by intros [= <-]].
  unfold os_Create. destruct (create_ok e _).
  - unfold bind, modify, ret. by intros [= <-].
  - discriminate.
Qed.

Lemma start_cpu_profile_keeps_flags e w w' :
  start_cpu_profile e w = Returned tt w' -> w_flags w' = w_flags w.
Proof.
  unfold start_cpu_profile, bind, get.
  destruct (cpu_profile (w_flags w)); [| by intros [= <-]].
  unfold log_Println, modify, os_Create. destruct (create_ok e _).
  - unfold bind, modify, ret, WriteString, modify. by intros [= <-].
  - discriminate.
Qed.

Lemma load_test_Config_fatal e w cfg msg :
  LoadConfig e (conf_file (w_flags w)) = (cfg, Some msg) ->
  load_test_Config e w
  = Exited 1 (add_logs [[LErr msg]; [LStr "Failed to parse config file"]]
                (set_vars (with_config cfg) w)).
Proof.
  intros H. unfold load_test_Config, bind at 1, get at 1. rewrite H.
  unfold log_Fatal, bind, log_Println, modify, os_Exit. f_equal.
  unfold add_logs, add_log. cbn [w_flags w_vars w_files w_log set_vars].
  by rewrite <- app_assoc.
Qed.

(** X9. When [LoadConfig] returns an error (and [-v] is not given) the
    process ends with status 1.  With neither the log file nor the CPU
    profile asked for, the error and the fatal message are logged, [config]
    is assigned, and nothing else happens: no executor is created, no
    results file is written and, [log.Fatal] skipping the deferred calls,
    no heap profile either. *)
Theorem config_error_is_fatal e w cfg msg :
  showVersion (w_flags w) = false ->
  LoadConfig e (conf_file (w_flags w)) = (cfg, Some msg) ->
  exit_status (main e w) = 1 /\
  (enable_log (w_flags w) = false -> cpu_profile (w_flags w) = false ->
   main e w
   = Exited 1 (add_logs [[LErr msg]; [LStr "Failed to parse config file"]]
                 (set_vars (with_config cfg) w))).
Proof.
  intros Hv Hload. rewrite main_unfold.
  rewrite parse_cmd_line_args_returns by exact Hv. split.
  - pose proof (fatal_only_configure e w) as Hconf.
    pose proof (configure_keeps_flags e w) as Hfl.
    destruct (configure_log_to_file e w) as [[] w2 | c w2 | v w2] eqn:Ec.
    + specialize (Hfl w2 eq_refl). unfold with_defers, run_load, bind.
      pose proof (fatal_only_start_cpu_profile e w2) as Hcpu.
      pose proof (start_cpu_profile_keeps_flags e w2) as Hfl2.
      destruct (start_cpu_profile e w2) as [[] w3 | c w3 | v w3] eqn:Es.
      * specialize (Hfl2 w3 eq_refl).
        rewrite (load_test_Config_fatal e w3 cfg msg) by (by rewrite Hfl2, Hfl).
        reflexivity.
      * cbn. by apply (Hcpu c w3).
      * exfalso. revert Es. unfold start_cpu_profile, bind, get.
        destruct (cpu_profile (w_flags w2)); [| discriminate].
        unfold log_Println, modify, os_Create.
        destruct (create_ok e _); discriminate.
    + cbn. by apply (Hconf c w2).
    + exfalso. revert Ec. unfold configure_log_to_file, bind, get.
      destruct (enable_log (w_flags w)); [| discriminate].
      unfold os_Create. destruct (create_ok e _); discriminate.
  - intros Hd Hp.
    unfold configure_log_to_file, bind at 1, get at 1. rewrite Hd.
    unfold ret at 1. unfold with_defers, run_load, bind at 1.
    unfold bind at 1.
    unfold start_cpu_profile, bind at 1, get at 1. rewrite Hp. unfold ret at 1.
    unfold bind at 1. by rewrite (load_test_Config_fatal e w cfg msg).
Qed.

Lemma config_error_is_fatal_witness :
  let e := sample_env_with (fun _ => true)
             (fun _ => (sample_config, Some "no such file")) in
  let fl := {| conf_file := "missing.toml"; results_file := "example.results";
               showVersion := false; cpu_profile := false;
               mem_profile := true; enable_log := false |} in
  exit_status (main e (initial fl ∅)) = 1 /\
  main e (initial fl ∅)
  = Exited 1 (add_logs [[LErr "no such file"]; [LStr "Failed to parse config file"]]
                (set_vars (with_config sample_config) (initial fl ∅))).
Proof.
  intros e fl.
  destruct (config_error_is_fatal e (initial fl ∅) sample_config "no such file")
    as [H1 H2].
  - reflexivity.
  - reflexivity.
  - split; [exact H1 | apply H2; reflexivity].
Defined.

(** *** The heap profile *)

Lemma write_mem_profile_writes e w :
  mem_profile (w_flags w) = true -> create_ok e "mem_profile" = true ->
  write_mem_profile e w
  = Returned tt
      (set_files (insert "mem_profile" (heap_profile_data e))
         (add_log [LStr "MEM Profile enabled"] w)).
Proof.
  intros Hm Hok. unfold write_mem_profile, bind at 1, get at 1. rewrite Hm.
  unfold bind at 1, log_Println, modify at 1.
  unfold bind at 1, os_Create. rewrite Hok.
  unfold bind, modify, ret, WriteString, modify. f_equal.
  unfold set_files. cbn [w_flags w_vars w_files w_log add_log]. f_equal.
  rewrite lookup_insert_eq, insert_insert_eq. reflexivity.
Qed.

(** X10. On a run that reaches [report] and creates the results file,
    with [-m] and a heap profile that can be created, the deferred
    [write_mem_profile] writes the profile whether or not an executor
    reported an error, that is, also when [exit] panics. *)
Theorem heap_profile_written_after_report e w w1 :
  before_report e w = Returned tt w1 ->
  create_ok e (results_file (w_flags w1)) = true ->
  mem_profile (w_flags w1) = true ->
  create_ok e "mem_profile" = true ->
  w_files (world_of (main e w)) !! "mem_profile" = Some (heap_profile_data e) /\
  In [LStr "MEM Profile enabled"] (w_log (world_of (main e w))).
Proof.
  intros Hrun Hres Hm Hok.
  rewrite (main_from_report e w w1 Hrun).
  unfold with_defers, bind. rewrite (report_returns e w1 Hres).
  unfold report_status, exit.
  destruct (existsb reports_error (executors (w_vars w1))); cbn [Z.eqb negb].
  - unfold panic. rewrite unwind_panicking.
    rewrite write_mem_profile_writes by assumption.
    cbn. split; [apply lookup_insert_eq |].
    apply in_or_app. left. apply in_or_app. right. by left.
  - unfold log_Println, modify. rewrite unwind_returns.
    rewrite write_mem_profile_writes by assumption.
    cbn. split; [apply lookup_insert_eq |]. apply in_or_app. right. by left.
Qed.

Lemma heap_profile_written_after_report_witness :
  let e := sample_env_with (fun _ => true) (LoadConfig (sample_env false)) in
  let fl := {| conf_file := "example.toml"; results_file := "example.results";
               showVersion := false; cpu_profile := false;
               mem_profile := true; enable_log := false |} in
  w_files (world_of (main e (initial fl ∅))) !! "mem_profile" = Some "heap".
Proof.
  intros e fl.
  destruct (heap_profile_written_after_report e (initial fl ∅)
              (world_of (before_report e (initial fl ∅)))) as [Hf _].
  - vm_compute. reflexivity.
  - reflexivity.
  - reflexivity.
  - reflexivity.
  - exact Hf.
Defined.

(** ** One executor per workload *)

Lemma add_executors_generated cfg l : forall w,
  Int.is_i32 (wl_id (w_vars w)) ->
  exists w',
    for_range l (add_executor cfg) w = Returned tt w' /\
    w_flags w' = w_flags w /\ w_files w' = w_files w /\
    w_log w' = w_log w ++ map adding l /\
    executors (w_vars w')
    = executors (w_vars w)
      ++ imap (fun k entry =>
                 executor_for cfg (Int.wrap_i32 (wl_id (w_vars w) + Z.of_nat k))
                              (snd entry)) l /\
    wl_id (w_vars w') = Int.wrap_i32 (wl_id (w_vars w) + Z.of_nat (length l)) /\
    start_time (w_vars w') = start_time (w_vars w) /\
    end_time (w_vars w') = end_time (w_vars w) /\
    dataBfr (w_vars w') = dataBfr (w_vars w) /\
    config (w_vars w') = config (w_vars w).
Proof.
  induction l as [| [Name wl] l IH]; intros w Hw.
  - exists w. cbn. rewrite !app_nil_r, Z.add_0_r.
    by rewrite wrap_i32_small by exact Hw.
  - cbn [for_range]. unfold bind at 1.
    unfold add_executor at 1, bind, log_Println, modify at 1.
    rewrite get_workload_id_returns. unfold modify at 1.
    match goal with |- context [for_range l _ ?w1] =>
      destruct (IH w1) as (w' & Hrun & Hfl & Hfs & Hlog & Hex & Hid & Hs & He & Hd & Hc)
    end.
    { cbn [set_vars w_vars with_executors with_wl_id wl_id add_log].
      apply wrap_i32_range. }
    exists w'. split; [exact Hrun |].
    rewrite Hfl, Hfs, Hlog, Hex, Hid, Hs, He, Hd, Hc.
    cbn [set_vars w_flags w_vars w_files w_log with_executors with_wl_id
         executors wl_id start_time end_time dataBfr config add_log].
    repeat split.
    + rewrite <- app_assoc. reflexivity.
    + rewrite <- app_assoc. f_equal. cbn [imap app]. f_equal.
      * unfold executor_for. cbn [snd]. rewrite Z.add_0_r.
        by rewrite wrap_i32_small by exact Hw.
      * apply imap_ext. intros k entry _. cbn. f_equal.
        unfold Int.add_i32. rewrite wrap_i32_add. f_equal. lia.
    + unfold Int.add_i32. rewrite wrap_i32_add. f_equal. cbn [length]. lia.
Qed.

Lemma generated_shape cfg (g : nat -> Z) (l : list (string * workload)) :
  Forall2 (fun entry x =>
             Type_ (Workload x) = Type_ (snd entry) /\
             host x = Server (Global cfg) /\ port x = Port (Global cfg))
          l (imap (fun k entry => executor_for cfg (g k) (snd entry)) l).
Proof.
  revert g. induction l as [| entry l IH]; intros g; [constructor |].
  rewrite imap_cons. constructor; [by repeat split |]. apply (IH (g ∘ S)).
Qed.

(** X11. [generate_executors] appends one executor per entry of
    [config.Workloads], in the order of the visit: the k-th has the type of
    its workload, the global server and port, and the id counter + k
    (wrapped to [int32]); the counter advances by the number of workloads
    and one line is logged per workload. *)
Theorem one_executor_per_workload w :
  Int.is_i32 (wl_id (w_vars w)) ->
  exists w',
    generate_executors w = Returned tt w' /\
    executors (w_vars w')
      = executors (w_vars w) ++ generated (config (w_vars w)) (wl_id (w_vars w)) /\
    Forall2 (fun entry x =>
               Type_ (Workload x) = Type_ (snd entry) /\
               host x = Server (Global (config (w_vars w))) /\
               port x = Port (Global (config (w_vars w))))
            (Workloads (config (w_vars w)))
            (generated (config (w_vars w)) (wl_id (w_vars w))) /\
    wl_id (w_vars w')
      = Int.wrap_i32 (wl_id (w_vars w)
                      + Z.of_nat (length (Workloads (config (w_vars w))))) /\
    w_log w' = w_log w ++ map adding (Workloads (config (w_vars w))).
Proof.
  intros Hw. unfold generate_executors, bind, get.
  destruct (add_executors_generated (config (w_vars w))
              (Workloads (config (w_vars w))) w Hw)
    as (w' & Hrun & Hfl & Hfs & Hlog & Hex & Hid & _).
  exists w'. repeat split; try assumption.
  apply generated_shape.
Qed.

Lemma one_executor_per_workload_witness :
  let w := set_vars (with_config sample_config) (initial default_flags ∅) in
  exists w',
    generate_executors w = Returned tt w' /\
    executors (w_vars w')
      = executors (w_vars w) ++ generated (config (w_vars w)) (wl_id (w_vars w)) /\
    Forall2 (fun entry x =>
               Type_ (Workload x) = Type_ (snd entry) /\
               host x = Server (Global (config (w_vars w))) /\
               port x = Port (Global (config (w_vars w))))
            (Workloads (config (w_vars w)))
            (generated (config (w_vars w)) (wl_id (w_vars w))) /\
    wl_id (w_vars w')
      = Int.wrap_i32 (wl_id (w_vars w)
                      + Z.of_nat (length (Workloads (config (w_vars w))))) /\
    w_log w' = w_log w ++ map adding (Workloads (config (w_vars w))).
Proof.
  apply (one_executor_per_workload
           (set_vars (with_config sample_config) (initial default_flags ∅))).
  unfold Int.is_i32. cbn. lia.
Defined.

(** ** The payload buffer *)




(** ** Workload ids stay distinct *)

Lemma wrapped_ids_distinct a n :
  Z.of_nat n <= 2 ^ 32 ->
  NoDup (map (fun k => Int.wrap_i32 (a + Z.of_nat k)) (seq 0 n)).
Proof.
  intros Hn. apply NoDup_fmap_2_strong; [| apply NoDup_seq].
  intros i j Hi Hj E.
  apply list_elem_of_In, in_seq in Hi. apply list_elem_of_In, in_seq in Hj.
  unfold Int.wrap_i32 in E.
  assert (E' : (a + Z.of_nat i + 2 ^ 31) mod 2 ^ 32
               = (a + Z.of_nat j + 2 ^ 31) mod 2 ^ 32) by lia.
  clear E.
  assert (Hd : (Z.of_nat i - Z.of_nat j) mod 2 ^ 32 = 0).
  { replace (Z.of_nat i - Z.of_nat j)
      with ((a + Z.of_nat i + 2 ^ 31) - (a + Z.of_nat j + 2 ^ 31)) by lia.
    rewrite Zminus_mod, E', Z.sub_diag. reflexivity. }
  apply Z.mod_divide in Hd; [| lia]. destruct Hd as [q Hq].
  assert (q = 0) by nia. lia.
Qed.

(** X13. The ids stay distinct beyond the point where they stop
    increasing: from any value of the counter, up to [2 ^ 32] calls of
    [get_workload_id] return pairwise distinct [int32] values, and
    [generate_executors] gives distinct ids to up to [2 ^ 32] workloads. *)
Theorem workload_ids_distinct n w :
  Int.is_i32 (wl_id (w_vars w)) ->
  executors (w_vars w) = [] ->
  Z.of_nat n <= 2 ^ 32 ->
  Z.of_nat (length (Workloads (config (w_vars w)))) <= 2 ^ 32 ->
  (exists ids,
     value_of (calls n w) = Some ids /\ NoDup ids /\ Forall Int.is_i32 ids) /\
  exists w',
    generate_executors w = Returned tt w' /\
    NoDup (ids_of (executors (w_vars w'))).
Proof.
  intros Hw Hnil Hn Hlen. split.
  - eexists. split; [by apply calls_values |].
    split; [by apply wrapped_ids_distinct |].
    apply Forall_forall. intros id Hid.
    apply list_elem_of_In, in_map_iff in Hid. destruct Hid as (k & <- & _).
    apply wrap_i32_range.
  - destruct (generate_executors_ids w Hw) as (w' & Hrun & Hids).
    exists w'. split; [exact Hrun |].
    rewrite Hids, Hnil. cbn [ids_of map app].
    by apply wrapped_ids_distinct.
Qed.

Lemma workload_ids_distinct_witness :
  let w := set_vars (with_wl_id (2 ^ 31 - 2))
             (set_vars (with_config sample_config) (initial default_flags ∅)) in
  (exists ids,
     value_of (calls 4 w) = Some ids /\ NoDup ids /\ Forall Int.is_i32 ids) /\
  exists w',
    generate_executors w = Returned tt w' /\
    NoDup (ids_of (executors (w_vars w'))).
Proof.
  apply (workload_ids_distinct 4
           (set_vars (with_wl_id (2 ^ 31 - 2))
              (set_vars (with_config sample_config) (initial default_flags ∅)))).
  - unfold Int.is_i32. cbn. lia.
  - reflexivity.
  - cbn. lia.
  - cbn. lia.
Defined.

(** ** From the configuration to the results file *)






(** ** The files [main] writes *)

Lemma same_outside_refl e w : same_outside e w w.
Proof. by split. Qed.

Lemma same_outside_trans e w1 w2 w3 :
  same_outside e w1 w2 -> same_outside e w2 w3 -> same_outside e w1 w3.
Proof.
  intros [F1 H1] [F2 H2]. split; [congruence |].
  intros path Hp. rewrite H2 by (by rewrite F1). by apply H1.
Qed.

Lemma writes_within_bind e {A B} (m : M A) (k : A -> M B) :
  writes_within e m -> (forall a, writes_within e (k a)) ->
  writes_within e (bind m k).
Proof.
  intros Hm Hk w. specialize (Hm w). unfold bind.
  destruct (m w) as [a w1 | c w1 | v w1]; cbn [world_of] in *; try exact Hm.
  apply (same_outside_trans e w w1); [exact Hm | apply Hk].
Qed.

Lemma writes_within_ret e {A} (a : A) : writes_within e (ret a).
Proof. intros w. apply same_outside_refl. Qed.

Lemma writes_within_get e {A} (f : world -> A) : writes_within e (get f).
Proof. intros w. apply same_outside_refl. Qed.

Lemma writes_within_Exit e {A} c : writes_within e (@os_Exit A c).
Proof. intros w. apply same_outside_refl. Qed.

Lemma writes_within_panic e {A} v : writes_within e (@panic A v).
Proof. intros w. apply same_outside_refl. Qed.

Lemma writes_within_set_vars e f : writes_within e (modify (set_vars f)).
Proof. intros w. by split. Qed.

Lemma writes_within_Println e entry : writes_within e (log_Println entry).
Proof. intros w. by split. Qed.

Lemma writes_within_Fatal e {A} entry : writes_within e (@log_Fatal A entry).
Proof. intros w. by split. Qed.

Lemma writes_within_set_files e path f :
  (forall fl, In path (written_paths e fl)) ->
  writes_within e (modify (set_files (fun fs => <[path := f fs]> fs))).
Proof.
  intros Hin w. split; [reflexivity |]. intros p Hp. cbn.
  apply lookup_insert_ne. intros ->. apply Hp, Hin.
Qed.

Lemma writes_within_Create e path :
  (forall fl, In path (written_paths e fl)) -> writes_within e (os_Create e path).
Proof.
  intros Hin. unfold os_Create. destruct (create_ok e path).
  - apply writes_within_bind; [| intros; apply writes_within_ret].
    by apply (writes_within_set_files e path (fun _ => String.EmptyString)).
  - apply writes_within_ret.
Qed.

Lemma writes_within_WriteString e path s :
  (forall fl, In path (written_paths e fl)) ->
  writes_within e (WriteString path s).
Proof.
  intros Hin. unfold WriteString.
  by apply (writes_within_set_files e path
              (fun fs => default String.EmptyString (fs !! path) +:+ s)).
Qed.

Lemma writes_within_for_range e {A} (l : list A) body :
  (forall x, writes_within e (body x)) -> writes_within e (for_range l body).
Proof.
  intros Hb. induction l as [| x l IH]; cbn [for_range].
  - apply writes_within_ret.
  - apply writes_within_bind; [apply Hb | intros _; exact IH].
Qed.

Lemma writes_within_report e : writes_within e (report e).
Proof.
  intros w. destruct (report_keeps_globals e w) as [Hf _].
  split; [exact Hf |]. intros path Hp. rewrite report_files.
  destruct (create_ok e _); [| reflexivity].
  apply lookup_insert_ne. intros <-. apply Hp. right. right. by left.
Qed.

Create HintDb frame discriminated.
#[local] Hint Resolve writes_within_ret writes_within_get writes_within_Exit
  writes_within_panic writes_within_set_vars writes_within_Println
  writes_within_Fatal writes_within_report : frame.

Ltac frame_steps :=
  repeat first
    [ solve [eauto with frame]
    | apply writes_within_Create; intros ?; cbn; tauto
    | apply writes_within_WriteString; intros ?; cbn; tauto
    | apply writes_within_bind; [| intros ?]
    | apply writes_within_for_range; intros ?
    | match goal with
      | |- writes_within _ (if ?b then _ else _) => destruct b
      | |- writes_within _ (match ?x with _ => _ end) => destruct x
      end ].

Lemma writes_within_parse e : writes_within e parse_cmd_line_args.
Proof. unfold parse_cmd_line_args. frame_steps. Qed.

Lemma writes_within_configure e : writes_within e (configure_log_to_file e).
Proof. unfold configure_log_to_file. frame_steps. Qed.

Lemma writes_within_start_cpu_profile e : writes_within e (start_cpu_profile e).
Proof. unfold start_cpu_profile. frame_steps. Qed.

Lemma writes_within_write_mem_profile e : writes_within e (write_mem_profile e).
Proof. unfold write_mem_profile. frame_steps. Qed.

Lemma writes_within_load_test_Config e : writes_within e (load_test_Config e).
Proof.
  unfold load_test_Config. apply writes_within_bind; [eauto with frame |].
  intros path. destruct (LoadConfig e path) as [cfg [msg |]]; frame_steps.
Qed.

Lemma writes_within_generate_executors e : writes_within e generate_executors.
Proof.
  unfold generate_executors. apply writes_within_bind; [eauto with frame |].
  intros cfg. apply writes_within_for_range. intros [Name wl].
  unfold add_executor, get_workload_id. frame_steps.
Qed.

Lemma writes_within_run_load e : writes_within e (run_load e).
Proof.
  unfold run_load.
  apply writes_within_bind; [apply writes_within_start_cpu_profile | intros _].
  apply writes_within_bind; [apply writes_within_load_test_Config | intros _].
  apply writes_within_bind; [apply writes_within_generate_executors | intros _].
  unfold start_executors, wait_for_completion. frame_steps.
Qed.

Lemma writes_within_exit e c : writes_within e (exit c).
Proof. unfold exit. frame_steps. Qed.

Lemma writes_within_unwind e ds :
  Forall (fun d : deferred => forall p, writes_within e (d p)) ds ->
  forall p, writes_within e (unwind ds p).
Proof.
  induction 1 as [| d ds Hd _ IH]; intros p w; cbn [unwind].
  - destruct p; apply same_outside_refl.
  - specialize (Hd p w).
    destruct (d p w) as [p' w1 | c w1 | v w1]; cbn [world_of] in *;
      try exact Hd.
    + apply (same_outside_trans e w w1); [exact Hd | apply IH].
    + apply (same_outside_trans e w w1); [exact Hd | apply IH].
Qed.

Lemma writes_within_defers e ds body :
  Forall (fun d : deferred => forall p, writes_within e (d p)) ds ->
  writes_within e body -> writes_within e (with_defers ds body).
Proof.
  intros Hds Hb w. unfold with_defers. specialize (Hb w).
  destruct (body w) as [[] w1 | c w1 | v w1]; cbn [world_of] in *;
    try exact Hb.
  - apply (same_outside_trans e w w1); [exact Hb | by apply writes_within_unwind].
  - apply (same_outside_trans e w w1); [exact Hb | by apply writes_within_unwind].
Qed.

Lemma writes_within_main e : writes_within e (main e).
Proof.
  unfold main.
  apply writes_within_bind; [apply writes_within_parse | intros _].
  apply writes_within_bind; [apply writes_within_configure | intros _].
  apply writes_within_defers.
  - unfold deferred_calls, plain, stop_cpu_profile, close_log_file, handle_exit.
    repeat (apply Forall_cons_2 || apply Forall_nil_2); intros p; frame_steps.
  - apply writes_within_bind; [apply writes_within_run_load | intros _].
    apply writes_within_bind; [apply writes_within_report | intros c].
    apply writes_within_exit.
Qed.

(** X15. [main] writes to no file but the log file, the two profiles and
    the results file: every other path holds at the end what it held at
    the start. *)
Theorem main_writes_only_its_files e w path :
  path <> now_stamp e +:+ "-loader.log" ->
  path <> "cpu_profile" ->
  path <> "mem_profile" ->
  path <> results_file (w_flags w) ->
  w_files (world_of (main e w)) !! path = w_files w !! path.
Proof.
  intros H1 H2 H3 H4. apply (writes_within_main e w).
  cbn. intros [E | [E | [E | [E | []]]]]; congruence.
Qed.

Lemma main_writes_only_its_files_witness :
  w_files (world_of (main (sample_env true)
                       (initial default_flags {["notes.txt" := "kept"]})))
    !! "notes.txt"
  = Some "kept".
Proof.
  rewrite (main_writes_only_its_files (sample_env true)
             (initial default_flags {["notes.txt" := "kept"]}) "notes.txt").
  - reflexivity.
  - intros E. vm_compute in E. discriminate E.
  - discriminate.
  - discriminate.
  - intros E. vm_compute in E. discriminate E.
Defined.
